(** * The controller of mlx_use: built-in actions, dispatcher, sequence runner

    A shallow embedding of [src/mlx_use/controller/service.py].

    The Python code is effectful: it prints to the console, writes to a
    logger, calls the accessibility layer ([click], [type_into]) and the
    Cocoa workspace ([launchApplication_], [runningApplications]) and may
    raise.  All of this is threaded explicitly through a state-and-exception
    monad [M]; every observable call is appended to a trace, so that
    statements such as "the capability is not invoked" are statements about
    that trace. *)

From stdpp Require Import base option list gmap strings pretty.

Open Scope Z_scope.
Open Scope string_scope.
Open Scope list_scope.

(** ** Python values and exceptions *)

(** The exceptions the controller distinguishes.  [ValueError] is the one
    class the source names (in [except ValueError] and in [act]); the four
    registry errors are the ones the specification lists for
    [Registry.execute]; every other exception is [OtherException]. *)
Inductive exn :=
  | ValueError (msg : string)
  | DuplicateActionError (name : string)
  | UnknownActionError (name : string)
  | InvalidParametersError (violation : string)
  | MissingContextError (name : string)
  | OtherException (cls msg : string).

(** [str(e)], as the f-string [f'... {e}'] shows an exception. *)
Definition exn_str (e : exn) : string :=
  match e with
  | ValueError msg => msg
  | DuplicateActionError name => name
  | UnknownActionError name => name
  | InvalidParametersError violation => violation
  | MissingContextError name => name
  | OtherException _ msg => msg
  end.

Inductive result (A : Type) :=
  | Ret (a : A)
  | Raise (e : exn).
Arguments Ret {A} a.
Arguments Raise {A} e.

(** Python truthiness of an [Optional[str]]: [None] and the empty string
    are both falsy. *)
Definition truthy (o : option string) : bool :=
  match o with
  | Some s => negb (String.eqb s "")
  | None => false
  end.

(** [needle in hay] on strings. *)
Fixpoint contains (needle hay : string) : bool :=
  String.prefix needle hay ||
  match hay with
  | EmptyString => false
  | String _ hay' => contains needle hay'
  end.

Definition newline : string := String (Ascii.ascii_of_nat 10) EmptyString.

(** ["\n".join(lines)] *)
Fixpoint join_lines (lines : list string) : string :=
  match lines with
  | [] => ""
  | [l] => l
  | l :: ls => l +:+ newline +:+ join_lines ls
  end.

(** ** The result envelope *)

(** Modelled from the spec: [ActionResult] is declared in
    [mlx_use.agent.views], which is not part of the sources at hand.  The
    fields are those of the specification's data model (section 3) and of
    the keyword arguments the controller passes; a field that is not passed
    keeps its default, [None] or [False]. *)
Record ActionResult := mkActionResult {
  extracted_content : option string;
  error : option string;
  is_done : bool;
  current_app_pid : option Z;
}.

(** [ActionResult()] *)
Definition ActionResult_empty : ActionResult :=
  {| extracted_content := None; error := None; is_done := false;
     current_app_pid := None |}.

(** ** The platform: capability provider and context source *)

Record RunningApplication := {
  localizedName : option string;
  bundleIdentifier : option string;
  bundleURL : option string;
  processIdentifier : Z;
}.

(** The external collaborators.  [World] is whatever state the operating
    system keeps; a capability call may change it and may answer
    differently each time.  [click] and [type_into] (from
    [mlx_use.mac.actions]) answer with a boolean or raise;
    [launchApplication_] answers with a boolean. [lower] is Python's
    [str.lower].  The calls of the Cocoa workspace are modelled in the runs
    in which they answer: a run in which the workspace itself raises is not
    described here, and what is proved of [open_app] and
    [list_running_apps] is proved of what they do with the answers. *)
Class Platform := {
  World : Type;
  Element : Type;
  element_str : Element → string;
  lower : string → string;
  click : Element → World → result bool * World;
  type_into : Element → string → bool → World → result bool * World;
  launchApplication_ : string → World → bool * World;
  runningApplications : World → list RunningApplication * World;
  sleep : Z → World → World;
}.

(** What the program does to the outside, in the order it does it. *)
Inductive event `{Platform} :=
  | Printed (line : string)
  | LogInfo (msg : string)
  | LogDebug (msg : string)
  | Click (element : Element)
  | TypeInto (element : Element) (text : string) (submit : bool)
  | LaunchApplication (name : string)
  | Sleep (seconds : Z)
  | RunningApplications.

Record State `{Platform} := mkState {
  world : World;
  trace : list event;
}.

(** [MacUITreeBuilder], as far as the controller reads it: the element
    cache, a dictionary from integer indices to live elements. *)
Record MacUITreeBuilder `{Platform} := {
  _element_cache : gmap Z Element;
}.

(** ** The monad *)

Definition M `{Platform} (A : Type) : Type := State → result A * State.

Global Instance M_ret `{Platform} : MRet M := λ A a st, (Ret a, st).

Global Instance M_bind `{Platform} : MBind M := λ A B f m st,
  match m st with
  | (Ret a, st') => f a st'
  | (Raise e, st') => (Raise e, st')
  end.

Definition raise `{Platform} {A} (e : exn) : M A := λ st, (Raise e, st).

(** [try: body  except Exception as e: handler e] *)
Definition try_except `{Platform} {A} (body : M A) (handler : exn → M A) : M A :=
  λ st,
    match body st with
    | (Ret a, st') => (Ret a, st')
    | (Raise e, st') => handler e st'
    end.

Definition emit `{Platform} (ev : event) : M () := λ st,
  (Ret (), {| world := world st; trace := trace st ++ [ev] |}).

Definition print `{Platform} (line : string) : M () := emit (Printed line).
Definition logger_info `{Platform} (msg : string) : M () := emit (LogInfo msg).
Definition logger_debug `{Platform} (msg : string) : M () := emit (LogDebug msg).

(** A call into the platform: the call is recorded, the world moves on. *)
Definition call `{Platform} {A} (ev : event) (f : World → result A * World) : M A :=
  λ st,
    let '(r, w) := f (world st) in
    (r, {| world := w; trace := trace st ++ [ev] |}).

Definition call_click `{Platform} (element : Element) : M bool :=
  call (Click element) (click element).

Definition call_type_into `{Platform} (element : Element) (text : string)
    (submit : bool) : M bool :=
  call (TypeInto element text submit) (type_into element text submit).

Definition call_launchApplication_ `{Platform} (name : string) : M bool :=
  call (LaunchApplication name)
       (λ w, let '(b, w') := launchApplication_ name w in (Ret b, w')).

Definition call_runningApplications `{Platform} : M (list RunningApplication) :=
  call RunningApplications
       (λ w, let '(apps, w') := runningApplications w in (Ret apps, w')).

Definition asyncio_sleep `{Platform} (seconds : Z) : M () :=
  call (Sleep seconds) (λ w, (Ret (), sleep seconds w)).

(** ** The built-in actions *)

(** [done], lines 35-39. *)
Definition done `{Platform} (text : string) : M ActionResult :=
  mret {| extracted_content := Some text; error := None; is_done := true;
          current_app_pid := None |}.

(** The two [except] clauses shared by [input_text] and [click_element]. *)
Definition print_exception `{Platform} (e : exn) : M () :=
  match e with
  | ValueError _ => print "❌ Invalid input. Please enter a number or 'q'."
  | _ => print ("❌ An error occurred: " +:+ exn_str e)
  end.

(** [input_text], lines 41-64. *)
Definition input_text `{Platform} (index : Z) (text : string) (submit : bool)
    (mac_tree_builder : MacUITreeBuilder) : M ActionResult :=
  logger_info ("Inputting text " +:+ text +:+ " into element with index "
               +:+ pretty index);;
  try_except
    (match _element_cache mac_tree_builder !! index with
     | Some element_to_input_text =>
         print ("Attempting to input text: "
                +:+ element_str element_to_input_text);;
         input_successful ← call_type_into element_to_input_text text submit;
         if input_successful : bool
         then print "✅ Input successful!"
         else print "❌ Input failed."
     | None => print "❌ Invalid index."
     end)
    print_exception;;
  mret {| extracted_content :=
            Some ("input text into element with index " +:+ pretty index);
          error := None; is_done := false; current_app_pid := None |}.

(** [click_element], lines 66-89. *)
Definition click_element `{Platform} (index : Z)
    (mac_tree_builder : MacUITreeBuilder) : M ActionResult :=
  logger_info ("Clicking element " +:+ pretty index);;
  try_except
    (match _element_cache mac_tree_builder !! index with
     | Some element_to_click =>
         print ("Attempting to click: " +:+ element_str element_to_click);;
         click_successful ← call_click element_to_click;
         if click_successful : bool
         then print "✅ Click successful!"
         else print "❌ Click failed."
     | None => print "❌ Invalid index."
     end)
    print_exception;;
  mret {| extracted_content :=
            Some ("clicked element with index " +:+ pretty index);
          error := None; is_done := false; current_app_pid := None |}.

(** [open_app], lines 95-111: the two launch attempts.  The function
    either returns from inside the nested [else] (line 111), which is
    [inl] of the returned result, or falls through to the guard of line
    113 with the current value of [success], which is [inr success]. *)
Definition open_app_launch `{Platform} (app_name : string)
    : M (ActionResult + bool) :=
  print (newline +:+ "Launching app: " +:+ app_name +:+ "...");;
  success ← call_launchApplication_ app_name;
  if success : bool then
    print ("✅ Launched app using name: " +:+ app_name);;
    mret (inr success)
  else
    print ("❌ Failed to launch app with name: " +:+ app_name
           +:+ ". Trying lowercased...");;
    let app_name_lower := lower app_name in
    success ← call_launchApplication_ app_name_lower;
    if success : bool then
      print ("✅ Launched app using lowercased name: " +:+ app_name_lower);;
      mret (inr success)
    else
      print ("❌ Failed to launch app with lowercased name: "
             +:+ app_name_lower);;
      let msg := "Failed to launch app: " +:+ app_name
                 +:+ " (and lowercased: " +:+ app_name_lower +:+ ")" in
      logger_debug msg;;
      mret (inl {| extracted_content := Some msg; error := Some msg;
                   is_done := false; current_app_pid := None |}).

(** The condition of line 119. *)
Definition bundle_matches `{Platform} (app_name : string)
    (app : RunningApplication) : bool :=
  match bundleIdentifier app with
  | Some bundle_id =>
      truthy (Some bundle_id) && contains (lower app_name) (lower bundle_id)
  | None => false
  end.

(** The result the guard of line 113 returns when [success] is false. *)
Definition open_app_not_success (app_name : string) : ActionResult :=
  {| extracted_content := Some ("Failed to open app " +:+ app_name);
     error := None; is_done := false; current_app_pid := None |}.

(** [open_app], lines 116-129: the delay and the one poll of the process
    list. *)
Definition open_app_poll `{Platform} (app_name : string) : M ActionResult :=
  asyncio_sleep 1;;
  apps ← call_runningApplications;
  match find (bundle_matches app_name) apps with
  | Some app =>
      print ("Bundle ID: " +:+ default "None" (bundleIdentifier app));;
      let pid := processIdentifier app in
      print ("PID: " +:+ pretty pid);;
      mret {| extracted_content := Some ("We opened the app " +:+ app_name);
              error := None; is_done := false; current_app_pid := Some pid |}
  | None =>
      let msg := "Could not find running app with name: " +:+ app_name
                 +:+ " in running applications." in
      logger_debug msg;;
      mret {| extracted_content := Some msg; error := Some msg;
              is_done := false; current_app_pid := None |}
  end.

(** [open_app], lines 91-129. *)
Definition open_app `{Platform} (app_name : string) : M ActionResult :=
  launched ← open_app_launch app_name;
  match launched with
  | inl returned => mret returned
  | inr success =>
      if negb success then mret (open_app_not_success app_name)
      else open_app_poll app_name
  end.

(** What the two launch attempts of [open_app] come to, on the side of
    the platform: whether one of them succeeded, and the world they leave. *)
Definition launch_outcome `{Platform} (app_name : string) (w : World)
    : bool * World :=
  let '(success, w1) := launchApplication_ app_name w in
  if success then (true, w1) else launchApplication_ (lower app_name) w1.

(** The processes [open_app] sees in its one poll, from the world [w] the
    launch left. *)
Definition polled `{Platform} (app_name : string) (w : World)
    : option RunningApplication :=
  find (bundle_matches app_name) (runningApplications (sleep 1 w)).1.

(** [list_running_apps], lines 131-143.  [bundleURL] holds what the
    f-string shows for the path of an application that has a bundle URL. *)
Definition list_running_apps `{Platform} : M ActionResult :=
  apps ← call_runningApplications;
  let lines :=
    map (λ app,
           let app_path := default "Path not available" (bundleURL app) in
           default "None" (localizedName app) +:+ " => "
           +:+ default "None" (bundleIdentifier app)
           +:+ " => Path: " +:+ app_path) apps in
  let output := join_lines lines in
  mret {| extracted_content := Some output; error := None; is_done := false;
          current_app_pid := None |}.

(** ** Requests and the registry *)

Inductive value :=
  | VInt (n : Z)
  | VStr (s : string)
  | VBool (b : bool).

(** What an action implementation can hand back to the dispatcher: a
    string, an [ActionResult], [None], or anything else, of which only
    [type(result)] and [str(result)] are ever looked at. *)
Inductive py_value :=
  | PyStr (s : string)
  | PyActionResult (r : ActionResult)
  | PyNone
  | PyOther (type_str value_str : string).

(** [action.model_dump(exclude_unset=True)]: the entries of an
    [ActionModel] that were set, in field order, each with its parameter
    dictionary or [None]. *)
Definition ActionModel : Type := list (string * option (gmap string value)).

Inductive field_type := TInt | TStr | TBool.

Definition has_type (t : field_type) (v : value) : bool :=
  match t, v with
  | TInt, VInt _ | TStr, VStr _ | TBool, VBool _ => true
  | _, _ => false
  end.

(** Modelled from the spec: the parameter models ([DoneAction],
    [InputTextAction], [ClickElementAction], [OpenAppAction] of
    [mlx_use.controller.views]) are not part of the sources at hand.  A
    parameter schema is the list of its fields with their types, read off
    the signatures of the functions registered with them. *)
Definition param_schema : Type := list (string * field_type).

Definition DoneAction : param_schema := [("text", TStr)].
Definition InputTextAction : param_schema :=
  [("index", TInt); ("text", TStr); ("submit", TBool)].
Definition ClickElementAction : param_schema := [("index", TInt)].
Definition OpenAppAction : param_schema := [("app_name", TStr)].
Definition NoParamsAction : param_schema := [].

(** Modelled from the spec: validation of raw parameters against a
    parameter schema (section 4.1, step b).  The answer is the validated
    payload or the name of the first field in violation. *)
Fixpoint validate (schema : param_schema) (raw : gmap string value)
    : string + gmap string value :=
  match schema with
  | [] => inr ∅
  | (field, t) :: schema' =>
      match raw !! field with
      | Some v =>
          if has_type t v then
            match validate schema' raw with
            | inr validated => inr (<[field := v]> validated)
            | inl violation => inl violation
            end
          else inl field
      | None => inl field
      end
  end.

(** Modelled from the spec: the action descriptor of section 3, together
    with the registered implementation.  The implementation receives the
    validated payload as keyword arguments and, when the descriptor
    requires it, the context. *)
Record RegisteredAction `{Platform} := {
  name : string;
  description : string;
  param_model : param_schema;
  requires_mac_builder : bool;
  function : gmap string value → option MacUITreeBuilder → M py_value;
}.

Definition Registry `{Platform} : Type := list RegisteredAction.

Definition Registry_lookup `{Platform} (registry : Registry) (action_name : string)
    : option RegisteredAction :=
  find (λ a, bool_decide (name a = action_name)) registry.

(** Modelled from the spec: [Registry.action], the registration of one
    descriptor (section 4.1, [register]): a name of the exclusion set is
    skipped silently, a name registered already is an error. *)
Definition Registry_action `{Platform} (exclude_actions : list string)
    (registry : Registry) (a : RegisteredAction) : result Registry :=
  if bool_decide (name a ∈ exclude_actions) then Ret registry
  else match Registry_lookup registry (name a) with
       | Some _ => Raise (DuplicateActionError (name a))
       | None => Ret (registry ++ [a])%list
       end.

(** Modelled from the spec: [Registry.execute_action] (section 4.1,
    [execute], steps a to d): lookup, validation, context injection,
    invocation.  What the implementation returns is handed back as it is;
    the dispatcher [act] normalises it. *)
Definition execute_action `{Platform} (registry : Registry)
    (action_name : string) (params : gmap string value)
    (mac_tree_builder : option MacUITreeBuilder) : M py_value :=
  match Registry_lookup registry action_name with
  | None => raise (UnknownActionError action_name)
  | Some a =>
      match validate (param_model a) params with
      | inl violation => raise (InvalidParametersError violation)
      | inr validated =>
          if requires_mac_builder a then
            match mac_tree_builder with
            | None => raise (MissingContextError action_name)
            | Some builder => function a validated (Some builder)
            end
          else function a validated None
      end
  end.

(** ** The controller *)

Definition kw_int (kwargs : gmap string value) (key : string) : option Z :=
  match kwargs !! key with Some (VInt n) => Some n | _ => None end.
Definition kw_str (kwargs : gmap string value) (key : string) : option string :=
  match kwargs !! key with Some (VStr s) => Some s | _ => None end.
Definition kw_bool (kwargs : gmap string value) (key : string) : option bool :=
  match kwargs !! key with Some (VBool b) => Some b | _ => None end.

(** A call whose keyword arguments do not fit the signature. *)
Definition bad_call `{Platform} {A} (function_name : string) : M A :=
  raise (OtherException "TypeError"
           (function_name +:+ "() got unexpected arguments")).

Definition returning `{Platform} (m : M ActionResult) : M py_value :=
  r ← m; mret (PyActionResult r).

(** The five registrations of [_register_default_actions], lines 32-143:
    the description, the parameter model and the [requires_mac_builder]
    flag as the decorators give them ([False] when not given), and the
    decorated function called with the payload as keyword arguments. *)
Definition done_action `{Platform} : RegisteredAction :=
  {| name := "done";
     description := "Complete task with text for the user";
     param_model := DoneAction;
     requires_mac_builder := false;
     function := λ kwargs _,
       match kw_str kwargs "text" with
       | Some text => returning (done text)
       | None => bad_call "done"
       end |}.

Definition input_text_action `{Platform} : RegisteredAction :=
  {| name := "input_text";
     description := "Input text";
     param_model := InputTextAction;
     requires_mac_builder := true;
     function := λ kwargs mac_tree_builder,
       match kw_int kwargs "index", kw_str kwargs "text",
             kw_bool kwargs "submit", mac_tree_builder with
       | Some index, Some text, Some submit, Some mac_tree_builder =>
           returning (input_text index text submit mac_tree_builder)
       | _, _, _, _ => bad_call "input_text"
       end |}.

Definition click_element_action `{Platform} : RegisteredAction :=
  {| name := "click_element";
     description := "Click element";
     param_model := ClickElementAction;
     requires_mac_builder := true;
     function := λ kwargs mac_tree_builder,
       match kw_int kwargs "index", mac_tree_builder with
       | Some index, Some mac_tree_builder =>
           returning (click_element index mac_tree_builder)
       | _, _ => bad_call "click_element"
       end |}.

Definition open_app_action `{Platform} : RegisteredAction :=
  {| name := "open_app";
     description := "Open a mac app";
     param_model := OpenAppAction;
     requires_mac_builder := false;
     function := λ kwargs _,
       match kw_str kwargs "app_name" with
       | Some app_name => returning (open_app app_name)
       | None => bad_call "open_app"
       end |}.

Definition list_running_apps_action `{Platform} : RegisteredAction :=
  {| name := "list_running_apps";
     description :=
       "List running mac apps (returns localized name, bundle id, and app path)";
     param_model := NoParamsAction;
     requires_mac_builder := false;
     function := λ _ _, returning list_running_apps |}.

Definition default_actions `{Platform} : list RegisteredAction :=
  [done_action; input_text_action; click_element_action; open_app_action;
   list_running_apps_action].

Fixpoint register_all `{Platform} (exclude_actions : list string)
    (registry : Registry) (actions : list RegisteredAction) : result Registry :=
  match actions with
  | [] => Ret registry
  | a :: actions' =>
      match Registry_action exclude_actions registry a with
      | Ret registry' => register_all exclude_actions registry' actions'
      | Raise e => Raise e
      end
  end.

Record Controller `{Platform} := {
  exclude_actions : list string;
  registry : Registry;
}.

(** [Controller.__init__], lines 24-30. *)
Definition Controller_init `{Platform} (exclude_actions : list string)
    : result Controller :=
  match register_all exclude_actions [] default_actions with
  | Ret registry =>
      Ret {| exclude_actions := exclude_actions; registry := registry |}
  | Raise e => Raise e
  end.

(** [Controller.action], lines 145-150: the registration of a custom
    action. *)
Definition Controller_action `{Platform} (self : Controller)
    (a : RegisteredAction) : result Controller :=
  match Registry_action (exclude_actions self) (registry self) a with
  | Ret registry =>
      Ret {| exclude_actions := exclude_actions self; registry := registry |}
  | Raise e => Raise e
  end.

(** The normalisation of lines 176-183. *)
Definition normalise `{Platform} (result : py_value) : M ActionResult :=
  match result with
  | PyStr s =>
      mret {| extracted_content := Some s; error := None; is_done := false;
              current_app_pid := None |}
  | PyActionResult r => mret r
  | PyNone => mret ActionResult_empty
  | PyOther type_str value_str =>
      raise (ValueError ("Invalid action result type: " +:+ type_str
                         +:+ " of " +:+ value_str))
  end.

(** The loop of [act], lines 172-184, over the dumped entries. *)
Fixpoint act_entries `{Platform} (self : Controller) (entries : ActionModel)
    (mac_tree_builder : MacUITreeBuilder) : M ActionResult :=
  match entries with
  | [] => mret ActionResult_empty
  | (action_name, params) :: entries' =>
      match params with
      | Some params =>
          result ← execute_action (registry self) action_name params
                     (Some mac_tree_builder);
          normalise result
      | None => act_entries self entries' mac_tree_builder
      end
  end.

(** [Controller.act], lines 168-186.  The decorator [time_execution_sync]
    only measures time. *)
Definition act `{Platform} (self : Controller) (action : ActionModel)
    (mac_tree_builder : MacUITreeBuilder) : M ActionResult :=
  try_except (act_entries self action mac_tree_builder) (λ e, raise e).

(** The loop of [multi_act], lines 159-164: [len] is [len(actions)] of
    the whole list, [i] the index [enumerate] has reached, [actions] what
    is left to iterate over.  [results[-1]] is the result appended just
    before. *)
Fixpoint multi_act_loop `{Platform} (self : Controller) (len i : Z)
    (actions : list ActionModel) (mac_tree_builder : MacUITreeBuilder)
    (results : list ActionResult) : M (list ActionResult) :=
  match actions with
  | [] => mret results
  | action :: actions' =>
      r ← act self action mac_tree_builder;
      let results := (results ++ [r])%list in
      logger_debug ("Executed action " +:+ pretty (i + 1) +:+ " / "
                    +:+ pretty len);;
      if is_done r || truthy (error r) || (i =? len - 1)%Z
      then mret results
      else multi_act_loop self len (i + 1) actions' mac_tree_builder results
  end.

(** [Controller.multi_act], lines 152-166.  The decorator
    [time_execution_async] only measures time. *)
Definition multi_act `{Platform} (self : Controller)
    (actions : list ActionModel) (mac_tree_builder : MacUITreeBuilder)
    (check_for_new_elements : bool) : M (list ActionResult) :=
  multi_act_loop self (Z.of_nat (length actions)) 0 actions mac_tree_builder [].

(** ** The sequence runner, in the words of the specification *)

(** The stopping condition of line 163, without the index test: Python
    takes [results[-1].error] as a condition, so an error that is [None]
    or the empty string does not stop the loop. *)
Definition terminal (r : ActionResult) : bool :=
  is_done r || truthy (error r).

(** The stopping condition as section 4.3 words it: [is_done] is true or
    [error] is not null. *)
Definition terminal_non_null (r : ActionResult) : bool :=
  is_done r || bool_decide (error r ≠ None).

(** Section 4.3, read as a recursive function: dispatch the requests in
    order, keep each result, stop after the first result that is terminal
    or when the requests are used up.  There is no accumulator and no index
    test.  The debug line the code writes after each dispatch is kept, so
    that the runner of the code and this one can be compared state for
    state. *)
Fixpoint run_sequence `{Platform} (stops : ActionResult → bool)
    (self : Controller) (len i : Z) (requests : list ActionModel)
    (context : MacUITreeBuilder) : M (list ActionResult) :=
  match requests with
  | [] => mret []
  | request :: requests' =>
      r ← act self request context;
      logger_debug ("Executed action " +:+ pretty (i + 1) +:+ " / "
                    +:+ pretty len);;
      if stops r then mret [r]
      else
        rs ← run_sequence stops self len (i + 1) requests' context;
        mret (r :: rs)
  end.

(** The requests a planner builds for the two element-indexed actions:
    [ActionModel(click_element=ClickElementAction(index=index))] and
    [ActionModel(input_text=InputTextAction(index=..., text=...,
    submit=...))], dumped. *)
Definition click_element_request (index : Z) : ActionModel :=
  [("click_element", Some {[ "index" := VInt index ]})].

Definition input_text_request (index : Z) (text : string) (submit : bool)
    : ActionModel :=
  [("input_text",
    Some (<["index" := VInt index]>
            (<["text" := VStr text]> {[ "submit" := VBool submit ]})))].

Definition done_request (text : string) : ActionModel :=
  [("done", Some {[ "text" := VStr text ]})].

Definition is_element_request (action : ActionModel) : Prop :=
  (∃ index, action = click_element_request index) ∨
  (∃ index text submit, action = input_text_request index text submit).

(** The result [click_element] and [input_text] build on their last
    lines. *)
Definition clicked (index : Z) : ActionResult :=
  {| extracted_content := Some ("clicked element with index " +:+ pretty index);
     error := None; is_done := false; current_app_pid := None |}.

Definition inputted (index : Z) : ActionResult :=
  {| extracted_content :=
       Some ("input text into element with index " +:+ pretty index);
     error := None; is_done := false; current_app_pid := None |}.

(** The line the console shows for the outcome of a capability call; the
    first two arguments are the lines for [True] and [False]. *)
Definition outcome_line (succeeded failed : string) (r : result bool) : string :=
  match r with
  | Ret true => succeeded
  | Ret false => failed
  | Raise (ValueError _) => "❌ Invalid input. Please enter a number or 'q'."
  | Raise e => "❌ An error occurred: " +:+ exn_str e
  end.

(** ** A small platform to run the controller on *)

Definition ascii_lower (c : Ascii.ascii) : Ascii.ascii :=
  let n := Ascii.nat_of_ascii c in
  if (65 <=? n)%nat && (n <=? 90)%nat then Ascii.ascii_of_nat (n + 32) else c.

Fixpoint string_lower (s : string) : string :=
  match s with
  | EmptyString => EmptyString
  | String c s' => String (ascii_lower c) (string_lower s')
  end.

Definition safari : RunningApplication :=
  {| localizedName := Some "Safari";
     bundleIdentifier := Some "com.apple.Safari";
     bundleURL := Some "/Applications/Safari.app";
     processIdentifier := 501 |}.

(** The world is the list of running applications.  Elements are named by
    strings: clicking or typing into ["OK"] succeeds, into ["Greyed"]
    fails, into ["Stale"] raises a [ValueError], into anything else raises
    another exception.  Only ["safari"] can be launched, and ["ghost"]
    reports a launch that starts no process. *)
Definition demo_touch (element : string) : result bool :=
  if String.eqb element "OK" then Ret true
  else if String.eqb element "Greyed" then Ret false
  else if String.eqb element "Stale" then Raise (ValueError "stale element")
  else Raise (OtherException "RuntimeError" "element is gone").

Definition demo_platform : Platform :=
  {| World := list RunningApplication;
     Element := string;
     element_str := λ element, element;
     lower := string_lower;
     click := λ element w, (demo_touch element, w);
     type_into := λ element _ _ w, (demo_touch element, w);
     launchApplication_ := λ app_name w,
       if String.eqb app_name "safari" then (true, safari :: w)
       else if String.eqb app_name "ghost" then (true, w)
       else (false, w);
     runningApplications := λ w, (w, w);
     sleep := λ _ w, w |}.

Definition demo_state : @State demo_platform :=
  @mkState demo_platform [] [].

Definition demo_builder : @MacUITreeBuilder demo_platform :=
  @Build_MacUITreeBuilder demo_platform
    (<[1 := "OK"]> (<[2 := "Greyed"]> (<[3 := "Stale"]> {[ 4 := "Gone" ]}))).

Definition demo_empty_builder : @MacUITreeBuilder demo_platform :=
  @Build_MacUITreeBuilder demo_platform ∅.

(** Custom actions, as an extension would register them through
    [Controller.action]: one for each kind of value an implementation can
    return, and one whose result carries an empty error string. *)
Definition custom_action (P : Platform) (action_name : string)
    (returned : py_value) : @RegisteredAction P :=
  {| name := action_name;
     description := "A custom action";
     param_model := NoParamsAction;
     requires_mac_builder := false;
     function := λ _ _, mret returned |}.

Definition empty_error : ActionResult :=
  {| extracted_content := Some "nothing to report"; error := Some "";
     is_done := false; current_app_pid := None |}.

Definition demo_registry : @Registry demo_platform :=
  (default_actions ++
   [custom_action demo_platform "say" (PyStr "hello");
    custom_action demo_platform "quiet" PyNone;
    custom_action demo_platform "count" (PyOther "<class 'int'>" "3");
    custom_action demo_platform "shrug" (PyActionResult empty_error)])%list.

Definition demo_controller : @Controller demo_platform :=
  {| exclude_actions := []; registry := demo_registry |}.

(** [Controller()], with nothing excluded. *)
Definition demo_fresh_controller : @Controller demo_platform :=
  {| exclude_actions := []; registry := default_actions |}.

Definition no_params_request (action_name : string) : ActionModel :=
  [(action_name, Some ∅)].


Definition ghost_app : RunningApplication :=
  {| localizedName := Some "Ghost"; bundleIdentifier := Some "org.Ghost.app";
     bundleURL := Some "/Applications/Ghost.app"; processIdentifier := 612 |}.

(** ** Further requests and views of the trace *)

(** [ActionModel(open_app=OpenAppAction(app_name=app_name))], dumped. *)
Definition open_app_request (app_name : string) : ActionModel :=
  [("open_app", Some {[ "app_name" := VStr app_name ]})].

(** The calls into the platform among the events: everything that is
    neither console output nor a log line. *)
Definition is_platform_call `{Platform} (ev : event) : bool :=
  match ev with
  | Printed _ | LogInfo _ | LogDebug _ => false
  | _ => true
  end.

Definition platform_calls `{Platform} (events : list event) : list event :=
  List.filter is_platform_call events.

(** ** Runs of the sequence runner, described from the outside *)

(** The debug line of line 162, written after the request of index [i]
    out of [len]. *)
Definition executed_line (i len : Z) : string :=
  "Executed action " +:+ pretty (i + 1) +:+ " / " +:+ pretty len.

Definition logged `{Platform} (st : State) (msg : string) : State :=
  {| world := world st; trace := trace st ++ [LogDebug msg] |}.

(** The two element-indexed actions, as data. *)
Inductive element_action :=
  | ClickElement (index : Z)
  | InputText (index : Z) (text : string) (submit : bool).

Definition element_request (ea : element_action) : ActionModel :=
  match ea with
  | ClickElement index => click_element_request index
  | InputText index text submit => input_text_request index text submit
  end.

Definition element_result (ea : element_action) : ActionResult :=
  match ea with
  | ClickElement index => clicked index
  | InputText index _ _ => inputted index
  end.

(** What one element-indexed action does to the outside, written down
    event by event: with an index that is not cached, a log line and the
    console line about the invalid index; with a cached index, one call of
    the capability on the cached element, between the console lines that
    announce it and report its outcome. *)
Definition element_effect `{Platform} (ea : element_action)
    (tb : MacUITreeBuilder) (st : State) : State :=
  match ea with
  | ClickElement index =>
      match _element_cache tb !! index with
      | None =>
          {| world := world st;
             trace := trace st ++
               [LogInfo ("Clicking element " +:+ pretty index);
                Printed "❌ Invalid index."] |}
      | Some element =>
          {| world := (click element (world st)).2;
             trace := trace st ++
               [LogInfo ("Clicking element " +:+ pretty index);
                Printed ("Attempting to click: " +:+ element_str element);
                Click element;
                Printed (outcome_line "✅ Click successful!" "❌ Click failed."
                           (click element (world st)).1)] |}
      end
  | InputText index text submit =>
      match _element_cache tb !! index with
      | None =>
          {| world := world st;
             trace := trace st ++
               [LogInfo ("Inputting text " +:+ text
                         +:+ " into element with index " +:+ pretty index);
                Printed "❌ Invalid index."] |}
      | Some element =>
          {| world := (type_into element text submit (world st)).2;
             trace := trace st ++
               [LogInfo ("Inputting text " +:+ text
                         +:+ " into element with index " +:+ pretty index);
                Printed ("Attempting to input text: "
                         +:+ element_str element);
                TypeInto element text submit;
                Printed (outcome_line "✅ Input successful!" "❌ Input failed."
                           (type_into element text submit (world st)).1)] |}
      end
  end.

(** What a run over element-indexed actions does to the outside: each
    action in turn, each followed by its debug line. *)
Fixpoint sequence_effect `{Platform} (len i : Z) (eas : list element_action)
    (tb : MacUITreeBuilder) (st : State) : State :=
  match eas with
  | [] => st
  | ea :: eas' =>
      sequence_effect len (i + 1) eas' tb
        (logged (element_effect ea tb st) (executed_line i len))
  end.

(** [runs_through self tb len i requests st rs st']: dispatched in order
    from state [st], as the requests of index [i] onwards out of [len],
    each of [requests] returns a result that does not stop the runner;
    [rs] are these results and [st'] is the state after the last debug
    line.  This speaks of one run, from one state. *)
Inductive runs_through `{Platform} (self : Controller) (tb : MacUITreeBuilder)
    (len : Z)
    : Z → list ActionModel → State → list ActionResult → State → Prop :=
  | runs_through_nil (i : Z) (st : State) :
      runs_through self tb len i [] st [] st
  | runs_through_cons (i : Z) (request : ActionModel)
      (requests : list ActionModel) (st st1 st2 : State) (r : ActionResult)
      (rs : list ActionResult) :
      act self request tb st = (Ret r, st1) →
      terminal r = false →
      runs_through self tb len (i + 1) requests
        (logged st1 (executed_line i len)) rs st2 →
      runs_through self tb len i (request :: requests) st (r :: rs) st2.

(** * Properties *)

(** ** Running the monad *)

Lemma bind_run `{Platform} {A B} (m : M A) (k : A → M B) (st : State) :
  (m ≫= k) st =
  match m st with
  | (Ret a, st') => k a st'
  | (Raise e, st') => (Raise e, st')
  end.
Proof. reflexivity. Qed.

Lemma emit_run `{Platform} (ev : event) (st : State) :
  emit ev st = (Ret (), {| world := world st; trace := trace st ++ [ev] |}).
Proof. reflexivity. Qed.

Ltac run_monad :=
  unfold print, logger_info, logger_debug, call_click, call_type_into,
    call_launchApplication_, call_runningApplications, asyncio_sleep, call,
    emit, try_except, raise, mbind, M_bind, mret, M_ret; simpl.

(** ** [click_element] and [input_text] *)

(** What [click_element] does, in one equation: the result is the same on
    every path, and the state tells the paths apart. *)
Lemma click_element_run `{Platform} (index : Z) (tb : MacUITreeBuilder)
    (st : State) :
  click_element index tb st =
  (Ret (clicked index),
   match _element_cache tb !! index with
   | None =>
       {| world := world st;
          trace := trace st ++
            [LogInfo ("Clicking element " +:+ pretty index);
             Printed "❌ Invalid index."] |}
   | Some element =>
       {| world := (click element (world st)).2;
          trace := trace st ++
            [LogInfo ("Clicking element " +:+ pretty index);
             Printed ("Attempting to click: " +:+ element_str element);
             Click element;
             Printed (outcome_line "✅ Click successful!" "❌ Click failed."
                        (click element (world st)).1)] |}
   end).
Proof.
  unfold click_element, clicked. run_monad.
  destruct (_element_cache tb !! index) as [element|]; simpl.
  - destruct (click element (world st)) as [[[|]|e] w]; simpl;
      try destruct e; simpl; rewrite <- !app_assoc; reflexivity.
  - rewrite <- !app_assoc. reflexivity.
Qed.

Lemma input_text_run `{Platform} (index : Z) (text : string) (submit : bool)
    (tb : MacUITreeBuilder) (st : State) :
  input_text index text submit tb st =
  (Ret (inputted index),
   match _element_cache tb !! index with
   | None =>
       {| world := world st;
          trace := trace st ++
            [LogInfo ("Inputting text " +:+ text
                      +:+ " into element with index " +:+ pretty index);
             Printed "❌ Invalid index."] |}
   | Some element =>
       {| world := (type_into element text submit (world st)).2;
          trace := trace st ++
            [LogInfo ("Inputting text " +:+ text
                      +:+ " into element with index " +:+ pretty index);
             Printed ("Attempting to input text: " +:+ element_str element);
             TypeInto element text submit;
             Printed (outcome_line "✅ Input successful!" "❌ Input failed."
                        (type_into element text submit (world st)).1)] |}
   end).
Proof.
  unfold input_text, inputted. run_monad.
  destruct (_element_cache tb !! index) as [element|]; simpl.
  - destruct (type_into element text submit (world st)) as [[[|]|e] w]; simpl;
      try destruct e; simpl; rewrite <- !app_assoc; reflexivity.
  - rewrite <- !app_assoc. reflexivity.
Qed.

(** C2 (as the code has it): [click_element] and [input_text] never raise.
    With an index that is absent from the element cache they do not call
    the capability: the world is untouched and the only events are the log
    line and the console line ["Invalid index."].  With an index that is
    present they call the capability once, on the cached element, and print
    its outcome.  On every path the returned [extracted_content] is the
    same fixed sentence naming the index: the invalid index, the success
    and the failure are reported on the console, not in the result. *)
Theorem element_actions_report_on_console `{Platform} (index : Z)
    (text : string) (submit : bool) (tb : MacUITreeBuilder) (st : State) :
  (_element_cache tb !! index = None →
     click_element index tb st =
       (Ret (clicked index),
        {| world := world st;
           trace := trace st ++
             [LogInfo ("Clicking element " +:+ pretty index);
              Printed "❌ Invalid index."] |}) ∧
     input_text index text submit tb st =
       (Ret (inputted index),
        {| world := world st;
           trace := trace st ++
             [LogInfo ("Inputting text " +:+ text
                       +:+ " into element with index " +:+ pretty index);
              Printed "❌ Invalid index."] |})) ∧
  (∀ element : Element, _element_cache tb !! index = Some element →
     click_element index tb st =
       (Ret (clicked index),
        {| world := (click element (world st)).2;
           trace := trace st ++
             [LogInfo ("Clicking element " +:+ pretty index);
              Printed ("Attempting to click: " +:+ element_str element);
              Click element;
              Printed (outcome_line "✅ Click successful!" "❌ Click failed."
                         (click element (world st)).1)] |}) ∧
     input_text index text submit tb st =
       (Ret (inputted index),
        {| world := (type_into element text submit (world st)).2;
           trace := trace st ++
             [LogInfo ("Inputting text " +:+ text
                       +:+ " into element with index " +:+ pretty index);
              Printed ("Attempting to input text: " +:+ element_str element);
              TypeInto element text submit;
              Printed (outcome_line "✅ Input successful!" "❌ Input failed."
                         (type_into element text submit (world st)).1)] |})).
Proof.
  split.
  - intros Habsent.
    rewrite click_element_run, input_text_run, Habsent. split; reflexivity.
  - intros element Hpresent.
    rewrite click_element_run, input_text_run, Hpresent. split; reflexivity.
Qed.

Lemma element_actions_report_on_console_witness :
  (@click_element demo_platform 7 demo_builder demo_state =
     (Ret (clicked 7),
      @mkState demo_platform []
        [LogInfo "Clicking element 7"; Printed "❌ Invalid index."]) ∧
   @input_text demo_platform 7 "hi" true demo_builder demo_state =
     (Ret (inputted 7),
      @mkState demo_platform []
        [LogInfo "Inputting text hi into element with index 7";
         Printed "❌ Invalid index."])) ∧
  (@click_element demo_platform 2 demo_builder demo_state =
     (Ret (clicked 2),
      @mkState demo_platform []
        [LogInfo "Clicking element 2"; Printed "Attempting to click: Greyed";
         @Click demo_platform "Greyed"; Printed "❌ Click failed."]) ∧
   @input_text demo_platform 2 "hi" true demo_builder demo_state =
     (Ret (inputted 2),
      @mkState demo_platform []
        [LogInfo "Inputting text hi into element with index 2";
         Printed "Attempting to input text: Greyed";
         @TypeInto demo_platform "Greyed" "hi" true;
         Printed "❌ Input failed."])).
Proof.
  split.
  - apply (proj1 (@element_actions_report_on_console demo_platform
                    7 "hi" true demo_builder demo_state)).
    reflexivity.
  - apply (proj2 (@element_actions_report_on_console demo_platform
                    2 "hi" true demo_builder demo_state) "Greyed").
    reflexivity.
Defined.

(** C2 fails as worded: with index 1 absent from the cache, with index 1
    present and the click succeeding, and with index 2 present and the
    click failing, the returned results say the same thing up to the index;
    for index 1 the two results are equal.  So nothing computed from the
    result can indicate the invalid index in the first run and not in the
    second. *)
Lemma extracted_content_hides_invalid_index :
  _element_cache demo_empty_builder !! 1 = None ∧
  _element_cache demo_builder !! 1 = Some "OK" ∧
  @click demo_platform "OK" [] = (Ret true, []) ∧
  @click demo_platform "Greyed" [] = (Ret false, []) ∧
  (@click_element demo_platform 1 demo_empty_builder demo_state).1
    = Ret (clicked 1) ∧
  (@click_element demo_platform 1 demo_builder demo_state).1
    = Ret (clicked 1) ∧
  (@click_element demo_platform 2 demo_builder demo_state).1
    = Ret (clicked 2) ∧
  extracted_content (clicked 1) = Some "clicked element with index 1" ∧
  ¬ ∃ indicates_invalid_index : ActionResult → bool,
      (∀ r, (@click_element demo_platform 1 demo_empty_builder demo_state).1
              = Ret r → indicates_invalid_index r = true) ∧
      (∀ r, (@click_element demo_platform 1 demo_builder demo_state).1
              = Ret r → indicates_invalid_index r = false).
Proof.
  repeat split; try reflexivity.
  intros (indicates & Habsent & Hpresent).
  specialize (Habsent (clicked 1) eq_refl).
  specialize (Hpresent (clicked 1) eq_refl).
  congruence.
Qed.

(** ** [open_app] *)

Ltac not_among :=
  rewrite ?not_elem_of_cons; repeat split;
  solve [discriminate | apply not_elem_of_nil].

(** The launch phase, path by path. *)
Lemma open_app_launch_run `{Platform} (app_name : string) (st : State) :
  open_app_launch app_name st =
  let launching :=
    Printed (newline +:+ "Launching app: " +:+ app_name +:+ "...") in
  let '(success, w1) := launchApplication_ app_name (world st) in
  if success then
    (Ret (inr true),
     {| world := w1;
        trace := trace st ++
          [launching; LaunchApplication app_name;
           Printed ("✅ Launched app using name: " +:+ app_name)] |})
  else
    let retrying :=
      Printed ("❌ Failed to launch app with name: " +:+ app_name
               +:+ ". Trying lowercased...") in
    let '(success, w2) := launchApplication_ (lower app_name) w1 in
    if success then
      (Ret (inr true),
       {| world := w2;
          trace := trace st ++
            [launching; LaunchApplication app_name; retrying;
             LaunchApplication (lower app_name);
             Printed ("✅ Launched app using lowercased name: "
                      +:+ lower app_name)] |})
    else
      let msg := "Failed to launch app: " +:+ app_name
                 +:+ " (and lowercased: " +:+ lower app_name +:+ ")" in
      (Ret (inl {| extracted_content := Some msg; error := Some msg;
                   is_done := false; current_app_pid := None |}),
       {| world := w2;
          trace := trace st ++
            [launching; LaunchApplication app_name; retrying;
             LaunchApplication (lower app_name);
             Printed ("❌ Failed to launch app with lowercased name: "
                      +:+ lower app_name);
             LogDebug msg] |}).
Proof.
  unfold open_app_launch. run_monad.
  destruct (launchApplication_ app_name (world st)) as [[|] w1]; simpl.
  - rewrite <- !app_assoc. reflexivity.
  - destruct (launchApplication_ (lower app_name) w1) as [[|] w2]; simpl;
      rewrite <- !app_assoc; reflexivity.
Qed.

(** The poll never raises; it answers with a process id or with an error. *)
Lemma open_app_poll_run `{Platform} (app_name : string) (st : State) :
  ∃ st', 
    open_app_poll app_name st =
    (Ret match find (bundle_matches app_name)
                 (runningApplications (sleep 1 (world st))).1 with
         | Some app =>
             {| extracted_content := Some ("We opened the app " +:+ app_name);
                error := None; is_done := false;
                current_app_pid := Some (processIdentifier app) |}
         | None =>
             let msg := "Could not find running app with name: " +:+ app_name
                        +:+ " in running applications." in
             {| extracted_content := Some msg; error := Some msg;
                is_done := false; current_app_pid := None |}
         end, st') ∧
    ∃ events, trace st' = trace st ++ Sleep 1 :: RunningApplications :: events.
Proof.
  unfold open_app_poll. run_monad.
  destruct (runningApplications (sleep 1 (world st))) as [apps w]; simpl.
  destruct (find (bundle_matches app_name) apps) as [app|]; simpl;
    eexists; (split; [reflexivity|]); simpl; rewrite <- !app_assoc; simpl;
    eexists; reflexivity.
Qed.

(** C4: when the launch with the name as given fails and the launch with
    the lower-cased name fails as well, [open_app] returns a result whose
    [error] is set (and not empty), and what it did to the outside is the
    two launch attempts, console and log lines: no delay, no poll of the
    process list. *)
Theorem open_app_both_launches_fail `{Platform} (app_name : string)
    (st : State) (w1 w2 : World) :
  launchApplication_ app_name (world st) = (false, w1) →
  launchApplication_ (lower app_name) w1 = (false, w2) →
  let msg := "Failed to launch app: " +:+ app_name
             +:+ " (and lowercased: " +:+ lower app_name +:+ ")" in
  ∃ events,
    open_app app_name st =
      (Ret {| extracted_content := Some msg; error := Some msg;
              is_done := false; current_app_pid := None |},
       {| world := w2; trace := trace st ++ events |}) ∧
    truthy (Some msg) = true ∧
    events =
      [Printed (newline +:+ "Launching app: " +:+ app_name +:+ "...");
       LaunchApplication app_name;
       Printed ("❌ Failed to launch app with name: " +:+ app_name
                +:+ ". Trying lowercased...");
       LaunchApplication (lower app_name);
       Printed ("❌ Failed to launch app with lowercased name: "
                +:+ lower app_name);
       LogDebug msg] ∧
    (RunningApplications ∉ events) ∧
    (∀ seconds, Sleep seconds ∉ events).
Proof.
  intros Hfirst Hsecond msg. eexists. split; [|split; [|split; [reflexivity|]]].
  - unfold open_app. rewrite bind_run, open_app_launch_run, Hfirst, Hsecond.
    reflexivity.
  - reflexivity.
  - split; [|intros seconds]; not_among.
Qed.

Lemma open_app_both_launches_fail_witness :
  ∃ events,
    @open_app demo_platform "Safari2" demo_state =
      (Ret {| extracted_content :=
                Some "Failed to launch app: Safari2 (and lowercased: safari2)";
              error :=
                Some "Failed to launch app: Safari2 (and lowercased: safari2)";
              is_done := false; current_app_pid := None |},
       @mkState demo_platform [] ([] ++ events)) ∧
    truthy (Some "Failed to launch app: Safari2 (and lowercased: safari2)")
      = true ∧
    events =
      [Printed (newline +:+ "Launching app: Safari2...");
       LaunchApplication "Safari2";
       Printed "❌ Failed to launch app with name: Safari2. Trying lowercased...";
       LaunchApplication "safari2";
       Printed "❌ Failed to launch app with lowercased name: safari2";
       LogDebug "Failed to launch app: Safari2 (and lowercased: safari2)"] ∧
    (@RunningApplications demo_platform ∉ events) ∧
    (∀ seconds, @Sleep demo_platform seconds ∉ events).
Proof.
  apply (@open_app_both_launches_fail demo_platform "Safari2" demo_state [] []);
    reflexivity.
Defined.

(** [open_app] never raises, and its result is decided by the outcome of
    the launch attempts and of the poll. *)
Lemma open_app_run `{Platform} (app_name : string) (st : State) :
  ∃ st',
    open_app app_name st =
    (Ret match launch_outcome app_name (world st) with
         | (false, _) =>
             let msg := "Failed to launch app: " +:+ app_name
                        +:+ " (and lowercased: " +:+ lower app_name +:+ ")" in
             {| extracted_content := Some msg; error := Some msg;
                is_done := false; current_app_pid := None |}
         | (true, w) =>
             match polled app_name w with
             | Some app =>
                 {| extracted_content :=
                      Some ("We opened the app " +:+ app_name);
                    error := None; is_done := false;
                    current_app_pid := Some (processIdentifier app) |}
             | None =>
                 let msg := "Could not find running app with name: "
                            +:+ app_name +:+ " in running applications." in
                 {| extracted_content := Some msg; error := Some msg;
                    is_done := false; current_app_pid := None |}
             end
         end, st').
Proof.
  unfold open_app, launch_outcome, polled.
  rewrite bind_run, open_app_launch_run.
  destruct (launchApplication_ app_name (world st)) as [[|] w1]; simpl.
  - match goal with
    | |- context [open_app_poll app_name ?s] =>
        destruct (open_app_poll_run app_name s) as (st' & -> & _)
    end.
    eexists. reflexivity.
  - destruct (launchApplication_ (lower app_name) w1) as [[|] w2]; simpl.
    + match goal with
      | |- context [open_app_poll app_name ?s] =>
          destruct (open_app_poll_run app_name s) as (st' & -> & _)
      end.
      eexists. reflexivity.
    + eexists. reflexivity.
Qed.

(** C9: the guard of line 113 is dead.  Whenever the launch phase falls
    through to the guard, [success] is true, since the path on which both
    attempts failed has returned on line 111; [open_app] is the same
    program with the guard taken out; and it never returns the result the
    guarded branch would build. *)
Theorem open_app_guard_unreachable `{Platform} (app_name : string)
    (st : State) :
  (∀ success st',
     open_app_launch app_name st = (Ret (inr success), st') → success = true) ∧
  open_app app_name st =
    (launched ← open_app_launch app_name;
     match launched with
     | inl returned => mret returned
     | inr _ => open_app_poll app_name
     end) st ∧
  (∀ r st', open_app app_name st = (r, st') →
     r ≠ Ret (open_app_not_success app_name)).
Proof.
  assert (Hguard : ∀ success st',
    open_app_launch app_name st = (Ret (inr success), st') → success = true).
  { intros success st'. rewrite open_app_launch_run.
    destruct (launchApplication_ app_name (world st)) as [[|] w1]; simpl.
    - congruence.
    - destruct (launchApplication_ (lower app_name) w1) as [[|] w2]; simpl;
        congruence. }
  split; [exact Hguard|split].
  - unfold open_app. rewrite !bind_run.
    destruct (open_app_launch app_name st) as [[[returned|success]|e] st1] eqn:E;
      try reflexivity.
    rewrite (Hguard success st1 eq_refl). reflexivity.
  - intros r st' Hrun. destruct (open_app_run app_name st) as (st1 & Hst1).
    rewrite Hst1 in Hrun. injection Hrun as <- _.
    unfold open_app_not_success.
    destruct (launch_outcome app_name (world st)) as [[|] w]; simpl;
      [destruct (polled app_name w)|]; congruence.
Qed.

Lemma open_app_guard_unreachable_witness :
  ∃ success st',
    @open_app_launch demo_platform "Safari" demo_state
      = (Ret (inr success), st') ∧
    success = true.
Proof.
  eexists _, _. split; [cbv; reflexivity|].
  eapply (proj1 (@open_app_guard_unreachable demo_platform "Safari"
                   demo_state)).
  cbv; reflexivity.
Defined.

(** C3 (as the code has it): none of the expected failures of a built-in
    action is raised to the caller.  A launch that fails twice and a
    launched application that the poll does not find are encoded in the
    [error] field of the result of [open_app], with a message that is not
    empty, so the sequence runner sees them.  A bad index and a failing or
    raising capability call in [click_element] and [input_text] are printed
    only: the result is returned normally with [error] unset. *)
Theorem expected_failures_are_returned `{Platform} :
  (∀ index tb st, ∃ st',
     click_element index tb st = (Ret (clicked index), st') ∧
     error (clicked index) = None) ∧
  (∀ index text submit tb st, ∃ st',
     input_text index text submit tb st = (Ret (inputted index), st') ∧
     error (inputted index) = None) ∧
  (∀ app_name st, ∃ r st',
     open_app app_name st = (Ret r, st') ∧
     ((launch_outcome app_name (world st)).1 = false →
        truthy (error r) = true ∧ error r = extracted_content r) ∧
     (∀ w, launch_outcome app_name (world st) = (true, w) →
        polled app_name w = None →
        truthy (error r) = true ∧ error r = extracted_content r) ∧
     (∀ w app, launch_outcome app_name (world st) = (true, w) →
        polled app_name w = Some app →
        error r = None ∧ current_app_pid r = Some (processIdentifier app))).
Proof.
  split; [|split].
  - intros index tb st. rewrite click_element_run. eexists. split; reflexivity.
  - intros index text submit tb st. rewrite input_text_run.
    eexists. split; reflexivity.
  - intros app_name st. destruct (open_app_run app_name st) as (st' & Hrun).
    eexists _, st'. split; [exact Hrun|].
    destruct (launch_outcome app_name (world st)) as [[|] w0]; simpl.
    + split; [discriminate|]. split.
      * intros w [= <-] Hpoll. rewrite Hpoll. split; reflexivity.
      * intros w app [= <-] Hpoll. rewrite Hpoll. split; reflexivity.
    + split; [intros _; split; reflexivity|]. split; intros; discriminate.
Qed.

Lemma expected_failures_are_returned_witness :
  ∃ r st',
    @open_app demo_platform "Notes" demo_state = (Ret r, st') ∧
    truthy (error r) = true ∧
    error r = Some "Failed to launch app: Notes (and lowercased: notes)".
Proof.
  destruct (proj2 (proj2 (@expected_failures_are_returned demo_platform))
              "Notes" demo_state) as (r & st' & Hrun & Hfailed & _).
  exists r, st'. split; [exact Hrun|].
  split; [apply Hfailed; reflexivity|].
  cbv in Hrun. injection Hrun as <- _. reflexivity.
Defined.

(** C3 fails as worded for the element-indexed actions: a click on an
    index that is not in the cache, and a click the capability reports as
    failed, both return a result whose [error] is [None]. *)
Lemma click_failures_leave_error_unset :
  _element_cache demo_empty_builder !! 1 = None ∧
  _element_cache demo_builder !! 2 = Some "Greyed" ∧
  @click demo_platform "Greyed" [] = (Ret false, []) ∧
  (∃ r st',
     @click_element demo_platform 1 demo_empty_builder demo_state
       = (Ret r, st') ∧ error r = None) ∧
  (∃ r st',
     @click_element demo_platform 2 demo_builder demo_state
       = (Ret r, st') ∧ error r = None) ∧
  ¬ (∀ r st',
       @click_element demo_platform 1 demo_empty_builder demo_state
         = (Ret r, st') → error r ≠ None).
Proof.
  repeat split.
  - eexists _, _. split; reflexivity.
  - eexists _, _. split; reflexivity.
  - intros Hclaim. eapply Hclaim; reflexivity.
Qed.

(** ** The dispatcher *)

(** The [try ... except Exception as e: raise e] of [act] changes
    nothing. *)
Lemma act_run `{Platform} (self : Controller) (action : ActionModel)
    (tb : MacUITreeBuilder) (st : State) :
  act self action tb st = act_entries self action tb st.
Proof.
  unfold act, try_except, raise.
  destruct (act_entries self action tb st) as [[r|e] st']; reflexivity.
Qed.

(** Entries whose parameters are [None] are passed over. *)
Lemma act_entries_skip `{Platform} (self : Controller)
    (unpopulated rest : ActionModel) (tb : MacUITreeBuilder) :
  Forall (λ entry, entry.2 = None) unpopulated →
  act_entries self (unpopulated ++ rest) tb = act_entries self rest tb.
Proof.
  induction 1 as [|[action_name params] unpopulated Hnone _ IH]; simpl.
  - reflexivity.
  - simpl in Hnone. subst params. exact IH.
Qed.

(** What [act] does with the first populated entry. *)
Lemma act_first_populated `{Platform} (self : Controller)
    (unpopulated rest : ActionModel) (action_name : string)
    (params : gmap string value) (tb : MacUITreeBuilder) (st : State) :
  Forall (λ entry, entry.2 = None) unpopulated →
  act self (unpopulated ++ (action_name, Some params) :: rest) tb st =
  (execute_action (registry self) action_name params (Some tb) ≫= normalise) st.
Proof.
  intros Hnone. rewrite act_run, act_entries_skip by exact Hnone. reflexivity.
Qed.

(** C5: the dispatcher normalises what the implementation of the first
    populated entry returns.  A string becomes a result with that string
    as [extracted_content] and nothing else set, an [ActionResult] is
    passed on as it is, [None] becomes the empty result, and anything else
    makes [act] raise (a [ValueError] that names the type and the value),
    in each case in the state the implementation left.  An exception of
    the implementation is raised on. *)
Theorem act_normalises_result `{Platform} (self : Controller)
    (unpopulated rest : ActionModel) (action_name : string)
    (params : gmap string value) (tb : MacUITreeBuilder) (st st' : State) :
  Forall (λ entry, entry.2 = None) unpopulated →
  let action := unpopulated ++ (action_name, Some params) :: rest in
  (∀ s, execute_action (registry self) action_name params (Some tb) st
          = (Ret (PyStr s), st') →
     act self action tb st =
       (Ret {| extracted_content := Some s; error := None; is_done := false;
               current_app_pid := None |}, st')) ∧
  (∀ r, execute_action (registry self) action_name params (Some tb) st
          = (Ret (PyActionResult r), st') →
     act self action tb st = (Ret r, st')) ∧
  (execute_action (registry self) action_name params (Some tb) st
     = (Ret PyNone, st') →
   act self action tb st = (Ret ActionResult_empty, st')) ∧
  (∀ type_str value_str,
     execute_action (registry self) action_name params (Some tb) st
       = (Ret (PyOther type_str value_str), st') →
     act self action tb st =
       (Raise (ValueError ("Invalid action result type: " +:+ type_str
                           +:+ " of " +:+ value_str)), st')) ∧
  (∀ e, execute_action (registry self) action_name params (Some tb) st
          = (Raise e, st') →
     act self action tb st = (Raise e, st')).
Proof.
  intros Hnone action. unfold action.
  rewrite act_first_populated by exact Hnone. rewrite bind_run.
  repeat split; intros; match goal with Hrun : _ = _ |- _ => rewrite Hrun end;
    reflexivity.
Qed.

Lemma act_normalises_result_witness :
  @act demo_platform demo_controller
    ([("done", None)] ++ ("say", Some ∅) :: [("quiet", Some ∅)])
    demo_builder demo_state
    = (Ret {| extracted_content := Some "hello"; error := None;
              is_done := false; current_app_pid := None |}, demo_state) ∧
  @act demo_platform demo_controller
    ([] ++ ("shrug", Some ∅) :: []) demo_builder demo_state
    = (Ret empty_error, demo_state) ∧
  @act demo_platform demo_controller
    ([] ++ ("quiet", Some ∅) :: []) demo_builder demo_state
    = (Ret ActionResult_empty, demo_state) ∧
  @act demo_platform demo_controller
    ([] ++ ("count", Some ∅) :: []) demo_builder demo_state
    = (Raise (ValueError "Invalid action result type: <class 'int'> of 3"),
       demo_state) ∧
  @act demo_platform demo_controller
    ([] ++ ("fly", Some ∅) :: []) demo_builder demo_state
    = (Raise (UnknownActionError "fly"), demo_state).
Proof.
  split; [|split; [|split; [|split]]].
  - apply (proj1 (@act_normalises_result demo_platform demo_controller
                    [("done", None)] [("quiet", Some ∅)] "say" ∅ demo_builder
                    demo_state demo_state
                    ltac:(repeat constructor))).
    reflexivity.
  - apply (proj1 (proj2 (@act_normalises_result demo_platform demo_controller
                    [] [] "shrug" ∅ demo_builder demo_state demo_state
                    ltac:(constructor)))).
    reflexivity.
  - apply (proj1 (proj2 (proj2 (@act_normalises_result demo_platform
                    demo_controller [] [] "quiet" ∅ demo_builder demo_state
                    demo_state ltac:(constructor))))).
    reflexivity.
  - apply (proj1 (proj2 (proj2 (proj2 (@act_normalises_result demo_platform
                    demo_controller [] [] "count" ∅ demo_builder demo_state
                    demo_state ltac:(constructor)))))
             "<class 'int'>" "3").
    reflexivity.
  - apply (proj2 (proj2 (proj2 (proj2 (@act_normalises_result demo_platform
                    demo_controller [] [] "fly" ∅ demo_builder demo_state
                    demo_state ltac:(constructor)))))).
    reflexivity.
Defined.

(** C6: a request with no populated entry (each entry is absent, or is
    there with [None]) is a no-op: [act] returns the empty result, whose
    [error] is unset and whose [is_done] is false, raises nothing, executes
    nothing and leaves the state as it was. *)
Theorem act_no_populated_entry `{Platform} (self : Controller)
    (action : ActionModel) (tb : MacUITreeBuilder) (st : State) :
  Forall (λ entry, entry.2 = None) action →
  act self action tb st = (Ret ActionResult_empty, st) ∧
  error ActionResult_empty = None ∧
  is_done ActionResult_empty = false ∧
  extracted_content ActionResult_empty = None.
Proof.
  intros Hnone. split; [|repeat split].
  rewrite act_run, <- (app_nil_r action), act_entries_skip by exact Hnone.
  reflexivity.
Qed.

Lemma act_no_populated_entry_witness :
  @act demo_platform demo_controller [("open_app", None); ("done", None)]
    demo_builder demo_state = (Ret ActionResult_empty, demo_state) ∧
  @act demo_platform demo_controller [] demo_builder demo_state
    = (Ret ActionResult_empty, demo_state).
Proof.
  split.
  - apply (@act_no_populated_entry demo_platform demo_controller
             [("open_app", None); ("done", None)] demo_builder demo_state).
    repeat constructor.
  - apply (@act_no_populated_entry demo_platform demo_controller
             [] demo_builder demo_state).
    constructor.
Defined.

(** ** The registry of a fresh controller *)

(** [Controller.__init__] never fails, and every default action whose name
    is not excluded is found under its name. *)
Lemma Controller_init_registry `{Platform} (exclude : list string) :
  ∃ self, Controller_init exclude = Ret self ∧
    exclude_actions self = exclude ∧
    ∀ a, a ∈ default_actions → name a ∉ exclude →
      Registry_lookup (registry self) (name a) = Some a.
Proof.
  unfold Controller_init, default_actions, register_all, Registry_action.
  simpl name.
  repeat (case_bool_decide; simpl Registry_lookup; cbn [name]).
  all: eexists; (split; [reflexivity|]); (split; [reflexivity|]).
  all: intros a Ha Hex; simpl registry.
  all: repeat (apply elem_of_cons in Ha as [->|Ha];
               [first [reflexivity | contradiction]|]).
  all: by apply elem_of_nil in Ha.
Qed.

Lemma Controller_init_lookup `{Platform} (exclude : list string)
    (self : Controller) (a : RegisteredAction) :
  Controller_init exclude = Ret self →
  a ∈ default_actions → name a ∉ exclude →
  Registry_lookup (registry self) (name a) = Some a.
Proof.
  intros Hinit Ha Hex.
  destruct (Controller_init_registry exclude) as (self' & Hinit' & _ & Hfind).
  rewrite Hinit in Hinit'. injection Hinit' as <-. by apply Hfind.
Qed.

(** The controller of the examples is built through the interface: a
    fresh controller and four registrations. *)
Lemma demo_controller_built :
  ∃ c0 c1 c2 c3,
    @Controller_init demo_platform [] = Ret c0 ∧
    Controller_action c0 (custom_action demo_platform "say" (PyStr "hello"))
      = Ret c1 ∧
    Controller_action c1 (custom_action demo_platform "quiet" PyNone) = Ret c2 ∧
    Controller_action c2
      (custom_action demo_platform "count" (PyOther "<class 'int'>" "3"))
      = Ret c3 ∧
    Controller_action c3
      (custom_action demo_platform "shrug" (PyActionResult empty_error))
      = Ret demo_controller.
Proof. eexists _, _, _, _. repeat split; reflexivity. Qed.

Lemma act_single `{Platform} (self : Controller) (action_name : string)
    (params : gmap string value) (tb : MacUITreeBuilder) (st : State) :
  act self [(action_name, Some params)] tb st =
  (execute_action (registry self) action_name params (Some tb) ≫= normalise) st.
Proof.
  apply (act_first_populated self [] [] action_name params tb st).
  constructor.
Qed.

(** Dispatching a [done] request, a [click_element] request or an
    [input_text] request runs the function of that name on the request's
    fields. *)
Lemma act_done_request `{Platform} (self : Controller) (text : string)
    (tb : MacUITreeBuilder) (st : State) :
  Registry_lookup (registry self) "done" = Some done_action →
  act self (done_request text) tb st = done text st.
Proof.
  intros Hfind. unfold done_request.
  rewrite act_single, bind_run.
  unfold execute_action. rewrite Hfind. simpl.
  rewrite lookup_singleton_eq. simpl.
  unfold kw_str. rewrite lookup_insert_eq. reflexivity.
Qed.

Lemma act_click_element_request `{Platform} (self : Controller) (index : Z)
    (tb : MacUITreeBuilder) (st : State) :
  Registry_lookup (registry self) "click_element" = Some click_element_action →
  act self (click_element_request index) tb st = click_element index tb st.
Proof.
  intros Hfind. unfold click_element_request.
  rewrite act_single, bind_run.
  unfold execute_action. rewrite Hfind. simpl.
  rewrite lookup_singleton_eq. simpl.
  unfold kw_int. rewrite lookup_insert_eq.
  unfold returning. rewrite !bind_run, click_element_run. reflexivity.
Qed.

Lemma act_input_text_request `{Platform} (self : Controller) (index : Z)
    (text : string) (submit : bool) (tb : MacUITreeBuilder) (st : State) :
  Registry_lookup (registry self) "input_text" = Some input_text_action →
  act self (input_text_request index text submit) tb st
    = input_text index text submit tb st.
Proof.
  intros Hfind. unfold input_text_request.
  rewrite act_single, bind_run.
  unfold execute_action. rewrite Hfind. simpl.
  rewrite lookup_insert_eq. simpl.
  rewrite lookup_insert_ne by done. rewrite lookup_insert_eq. simpl.
  rewrite !lookup_insert_ne by done. rewrite lookup_singleton_eq. simpl.
  unfold kw_int, kw_str, kw_bool.
  rewrite lookup_insert_eq.
  rewrite lookup_insert_ne by done. rewrite lookup_insert_eq.
  rewrite !lookup_insert_ne by done. rewrite lookup_insert_eq.
  unfold returning. rewrite !bind_run, input_text_run. reflexivity.
Qed.

(** C7: [done] always succeeds and returns the text as
    [extracted_content] with [is_done] set and nothing else; it does
    nothing to the outside.  Through the dispatcher of a controller that
    does not exclude ["done"], a request populated with [done] and that
    text yields the same result, unchanged. *)
Theorem done_returns_text_and_is_done `{Platform} (text : string)
    (st : State) :
  done text st =
    (Ret {| extracted_content := Some text; error := None; is_done := true;
            current_app_pid := None |}, st) ∧
  (∀ exclude self tb,
     Controller_init exclude = Ret self → "done" ∉ exclude →
     act self (done_request text) tb st =
       (Ret {| extracted_content := Some text; error := None;
               is_done := true; current_app_pid := None |}, st)).
Proof.
  split; [reflexivity|].
  intros exclude self tb Hinit Hex.
  rewrite act_done_request; [reflexivity|].
  apply (Controller_init_lookup exclude self done_action Hinit);
    [repeat constructor | exact Hex].
Qed.

Lemma done_returns_text_and_is_done_witness :
  ∃ self,
    @Controller_init demo_platform ["open_app"] = Ret self ∧
    act self (done_request "all set") demo_builder demo_state =
      (Ret {| extracted_content := Some "all set"; error := None;
              is_done := true; current_app_pid := None |}, demo_state).
Proof.
  eexists. split; [reflexivity|].
  apply (proj2 (@done_returns_text_and_is_done demo_platform "all set"
                  demo_state) ["open_app"]).
  - reflexivity.
  - rewrite not_elem_of_cons. split; [discriminate | apply not_elem_of_nil].
Defined.

(** ** The sequence runner *)

(** The loop of the code, with its accumulator and its test on the index,
    computes what the runner of the specification computes, as long as the
    index is in step with what is left of the list. *)
Lemma multi_act_loop_run_sequence `{Platform} (self : Controller) (len : Z)
    (tb : MacUITreeBuilder) (actions : list ActionModel) :
  ∀ (i : Z) (results : list ActionResult) (st : State),
    i + Z.of_nat (length actions) = len →
    multi_act_loop self len i actions tb results st =
    (new ← run_sequence terminal self len i actions tb;
     mret (results ++ new)) st.
Proof.
  induction actions as [|action actions IH]; intros i results st Hlen.
  - simpl. rewrite bind_run. simpl. rewrite app_nil_r. reflexivity.
  - simpl multi_act_loop. simpl run_sequence. rewrite !bind_run.
    destruct (act self action tb st) as [[r|e] st1]; [|reflexivity].
    rewrite !bind_run. simpl.
    fold (terminal r). destruct (terminal r) eqn:Hterminal; simpl.
    + reflexivity.
    + destruct (Z.eqb_spec i (len - 1)) as [Hlast|Hmore].
      * destruct actions as [|action' actions]; [reflexivity|].
        simpl in Hlen. lia.
      * rewrite IH by (simpl in Hlen; lia). rewrite !bind_run.
        match goal with
        | |- context [run_sequence terminal self len (i + 1) actions tb ?s] =>
            destruct (run_sequence terminal self len (i + 1) actions tb s)
              as [[rs|e] st2]
        end; [|reflexivity].
        simpl. rewrite <- app_assoc. reflexivity.
Qed.

Lemma multi_act_run_sequence `{Platform} (self : Controller)
    (actions : list ActionModel) (tb : MacUITreeBuilder) (flag : bool)
    (st : State) :
  multi_act self actions tb flag st =
  run_sequence terminal self (Z.of_nat (length actions)) 0 actions tb st.
Proof.
  unfold multi_act. rewrite multi_act_loop_run_sequence by lia.
  rewrite bind_run.
  destruct (run_sequence terminal self (Z.of_nat (length actions)) 0 actions
              tb st) as [[rs|e] st']; reflexivity.
Qed.

(** The shape of what the runner returns: the results before the last one
    are not terminal, and either every request was dispatched or the last
    result is terminal. *)
Lemma run_sequence_shape `{Platform} (stops : ActionResult → bool)
    (self : Controller) (len : Z) (tb : MacUITreeBuilder)
    (requests : list ActionModel) :
  ∀ (i : Z) (st st' : State) (rs : list ActionResult),
    run_sequence stops self len i requests tb st = (Ret rs, st') →
    (length rs ≤ length requests)%nat ∧
    Forall (λ r, stops r = false) (removelast rs) ∧
    (length rs = length requests ∨ ∃ r, last rs = Some r ∧ stops r = true).
Proof.
  induction requests as [|request requests IH]; intros i st st' rs Hrun.
  - simpl in Hrun. injection Hrun as <- _.
    split; [reflexivity|]. split; [constructor|]. left. reflexivity.
  - simpl in Hrun. rewrite !bind_run in Hrun.
    destruct (act self request tb st) as [[r|e] st1]; [|discriminate].
    rewrite bind_run in Hrun. simpl in Hrun.
    destruct (stops r) eqn:Hstops.
    + injection Hrun as <- _. simpl.
      split; [lia|]. split; [constructor|]. right. by exists r.
    + rewrite bind_run in Hrun.
      match type of Hrun with
      | context [run_sequence stops self len (i + 1) requests tb ?s] =>
          destruct (run_sequence stops self len (i + 1) requests tb s)
            as [[rs'|e] st2] eqn:Hrest
      end; [|discriminate].
      injection Hrun as <- _.
      destruct (IH _ _ _ _ Hrest) as (Hle & Hfront & Hend).
      split; [simpl; lia|]. split.
      * destruct rs' as [|r' rs']; [constructor|].
        change (removelast (r :: r' :: rs')) with (r :: removelast (r' :: rs')).
        by constructor.
      * destruct Hend as [Hall|(r' & Hlast & Hr')].
        -- left. simpl. by rewrite Hall.
        -- right. exists r'. split; [|exact Hr'].
           destruct rs' as [|r'' rs']; [discriminate|exact Hlast].
Qed.

(** A sequence none of whose requests can produce a terminal result or an
    exception is run to its end. *)
Lemma run_sequence_exhausts `{Platform} (self : Controller) (len : Z)
    (tb : MacUITreeBuilder) (requests : list ActionModel) :
  Forall (λ request, ∀ st, ∃ r st',
            act self request tb st = (Ret r, st') ∧
            error r = None ∧ is_done r = false) requests →
  ∀ (i : Z) (st : State), ∃ rs st',
    run_sequence terminal self len i requests tb st = (Ret rs, st') ∧
    length rs = length requests ∧
    Forall (λ r, error r = None ∧ is_done r = false) rs.
Proof.
  induction 1 as [|request requests Hact _ IH]; intros i st.
  - exists [], st. repeat split; constructor.
  - destruct (Hact st) as (r & st1 & Hrun & Herror & Hdone).
    simpl. rewrite !bind_run, Hrun, bind_run. simpl.
    unfold terminal at 1. rewrite Herror, Hdone. simpl.
    rewrite bind_run.
    match goal with
    | |- context [run_sequence terminal self len (i + 1) requests tb ?s] =>
        destruct (IH (i + 1) s) as (rs & st2 & -> & Hlen & Hall)
    end.
    exists (r :: rs), st2. simpl. split; [reflexivity|].
    split; [by rewrite Hlen|]. by constructor.
Qed.

(** C1 (as the code has it): [multi_act] dispatches the requests in order
    and keeps each result; it stops as soon as the most recent result has
    [is_done] true or an [error] that is set and not the empty string, or
    when the list is used up.  It is the runner of section 4.3 with that
    stopping condition; the results before the last are not terminal, and
    the list of results is complete or ends in a terminal result; if the
    first result is terminal, it is the only one, and the final state is
    the state the first dispatch left plus one debug line, so nothing else
    was dispatched.  In particular, for [A; B; C] where the result of [A]
    has [is_done] true, only [A] is dispatched and one result is
    returned. *)
Theorem multi_act_stops_at_first_terminal `{Platform} (self : Controller)
    (tb : MacUITreeBuilder) (flag : bool) :
  (∀ actions st,
     multi_act self actions tb flag st =
     run_sequence terminal self (Z.of_nat (length actions)) 0 actions tb st) ∧
  (∀ actions st rs st',
     multi_act self actions tb flag st = (Ret rs, st') →
     Forall (λ r, is_done r = false ∧ truthy (error r) = false)
       (removelast rs) ∧
     (length rs = length actions ∨
      ∃ r, last rs = Some r ∧ (is_done r = true ∨ truthy (error r) = true))) ∧
  (∀ a rest st r st1,
     act self a tb st = (Ret r, st1) →
     is_done r = true ∨ truthy (error r) = true →
     multi_act self (a :: rest) tb flag st =
       (Ret [r],
        {| world := world st1;
           trace := trace st1 ++
             [LogDebug ("Executed action " +:+ pretty 1 +:+ " / "
                        +:+ pretty (Z.of_nat (S (length rest))))] |})) ∧
  (∀ A B C st r st1,
     act self A tb st = (Ret r, st1) →
     is_done r = true →
     multi_act self [A; B; C] tb flag st =
       (Ret [r],
        {| world := world st1;
           trace := trace st1 ++ [LogDebug "Executed action 1 / 3"] |})).
Proof.
  assert (Hfirst : ∀ a rest st r st1,
    act self a tb st = (Ret r, st1) →
    is_done r = true ∨ truthy (error r) = true →
    multi_act self (a :: rest) tb flag st =
      (Ret [r],
       {| world := world st1;
          trace := trace st1 ++
            [LogDebug ("Executed action " +:+ pretty 1 +:+ " / "
                       +:+ pretty (Z.of_nat (S (length rest))))] |})).
  { intros a rest st r st1 Hact Hterminal.
    rewrite multi_act_run_sequence. simpl run_sequence.
    rewrite !bind_run, Hact, bind_run. simpl.
    assert (terminal r = true) as ->; [|reflexivity].
    unfold terminal. destruct Hterminal as [-> | ->]; [reflexivity|].
    apply orb_true_r. }
  split; [|split; [|split]].
  - intros actions st. apply multi_act_run_sequence.
  - intros actions st rs st' Hrun. rewrite multi_act_run_sequence in Hrun.
    destruct (run_sequence_shape _ _ _ _ _ _ _ _ _ Hrun)
      as (_ & Hfront & Hend).
    split.
    + eapply Forall_impl; [exact Hfront|].
      intros r Hr. unfold terminal in Hr. by apply orb_false_iff in Hr.
    + destruct Hend as [Hall|(r & Hlast & Hr)]; [by left|].
      right. exists r. split; [exact Hlast|].
      unfold terminal in Hr. by apply orb_true_iff in Hr.
  - exact Hfirst.
  - intros A B C st r st1 Hact Hdone.
    rewrite (Hfirst A [B; C] st r st1 Hact (or_introl Hdone)). reflexivity.
Qed.

Lemma multi_act_stops_at_first_terminal_witness :
  @multi_act demo_platform demo_controller
    [done_request "ok"; click_element_request 1; click_element_request 2]
    demo_builder true demo_state =
  (Ret [ {| extracted_content := Some "ok"; error := None; is_done := true;
            current_app_pid := None |} ],
   @mkState demo_platform [] [LogDebug "Executed action 1 / 3"]).
Proof.
  apply (proj2 (proj2 (proj2 (@multi_act_stops_at_first_terminal
           demo_platform demo_controller demo_builder true)))
           (done_request "ok") (click_element_request 1)
           (click_element_request 2) demo_state _ demo_state);
    reflexivity.
Defined.

(** C1 fails as worded: the custom action ["shrug"] returns a result whose
    [error] is the empty string, which is not null; [multi_act] goes on
    and dispatches the click that follows, as the trace shows, and returns
    two results, where a runner that stops on every non-null error returns
    one. *)
Lemma empty_error_does_not_stop_the_sequence :
  @act demo_platform demo_controller (no_params_request "shrug")
    demo_builder demo_state = (Ret empty_error, demo_state) ∧
  error empty_error ≠ None ∧
  terminal_non_null empty_error = true ∧
  @multi_act demo_platform demo_controller
    [no_params_request "shrug"; click_element_request 7]
    demo_builder true demo_state =
  (Ret [empty_error; clicked 7],
   @mkState demo_platform []
     [LogDebug "Executed action 1 / 2"; LogInfo "Clicking element 7";
      Printed "❌ Invalid index."; LogDebug "Executed action 2 / 2"]) ∧
  @run_sequence demo_platform terminal_non_null demo_controller 2 0
    [no_params_request "shrug"; click_element_request 7]
    demo_builder demo_state =
  (Ret [empty_error],
   @mkState demo_platform [] [LogDebug "Executed action 1 / 2"]) ∧
  ¬ (∀ r st1,
       @act demo_platform demo_controller (no_params_request "shrug")
         demo_builder demo_state = (Ret r, st1) →
       error r ≠ None →
       ∃ st',
         @multi_act demo_platform demo_controller
           [no_params_request "shrug"; click_element_request 7]
           demo_builder true demo_state = (Ret [r], st')).
Proof.
  split; [reflexivity|]. split; [discriminate|]. split; [reflexivity|].
  split; [reflexivity|]. split; [reflexivity|].
  intros Hclaim.
  destruct (Hclaim empty_error demo_state eq_refl) as (st' & Hrun);
    [discriminate|].
  discriminate Hrun.
Qed.

(** C10: on the empty list [multi_act] returns the empty list and leaves
    the state as it was, so nothing was dispatched; and it never returns
    more results than it was given requests. *)
Theorem multi_act_length `{Platform} (self : Controller)
    (tb : MacUITreeBuilder) (flag : bool) :
  (∀ st, multi_act self [] tb flag st = (Ret [], st)) ∧
  (∀ actions st rs st',
     multi_act self actions tb flag st = (Ret rs, st') →
     (length rs ≤ length actions)%nat).
Proof.
  split; [reflexivity|].
  intros actions st rs st' Hrun. rewrite multi_act_run_sequence in Hrun.
  by destruct (run_sequence_shape _ _ _ _ _ _ _ _ _ Hrun) as (Hle & _).
Qed.

Lemma multi_act_length_witness :
  (length [clicked 3; clicked 7] ≤
   length [click_element_request 3; click_element_request 7])%nat.
Proof.
  apply (proj2 (@multi_act_length demo_platform demo_controller demo_builder
                  true)
           [click_element_request 3; click_element_request 7] demo_state
           [clicked 3; clicked 7]
           (@mkState demo_platform []
              [LogInfo "Clicking element 3";
               Printed "Attempting to click: Stale"; @Click demo_platform "Stale";
               Printed "❌ Invalid input. Please enter a number or 'q'.";
               LogDebug "Executed action 1 / 2"; LogInfo "Clicking element 7";
               Printed "❌ Invalid index."; LogDebug "Executed action 2 / 2"])).
  reflexivity.
Defined.

(** A run in which each request of a front part returns a result that
    does not stop the runner goes on, from the state that front part left,
    with what follows it. *)
Lemma runs_through_run_sequence `{Platform} (self : Controller)
    (tb : MacUITreeBuilder) (len i : Z) (front : list ActionModel)
    (st st1 : State) (rs : list ActionResult) :
  runs_through self tb len i front st rs st1 →
  ∀ more,
    run_sequence terminal self len i (front ++ more) tb st =
    (rs' ← run_sequence terminal self len (i + Z.of_nat (length front)) more tb;
     mret (rs ++ rs')) st1.
Proof.
  induction 1 as [i st|i request requests st st1 st2 r rs Hact Hgo _ IH];
    intros more.
  - simpl. rewrite Z.add_0_r, bind_run.
    destruct (run_sequence terminal self len i more tb st) as [[rs'|e] st'];
      reflexivity.
  - simpl app. simpl run_sequence. rewrite !bind_run, Hact, bind_run. simpl.
    rewrite Hgo, bind_run.
    change {| world := world st1;
              trace := trace st1 ++
                [LogDebug ("Executed action " +:+ pretty (i + 1) +:+ " / "
                           +:+ pretty len)] |}
      with (logged st1 (executed_line i len)).
    rewrite IH, !bind_run. simpl length.
    replace (i + Z.of_nat (S (length requests)))
      with (i + 1 + Z.of_nat (length requests)) by lia.
    destruct (run_sequence terminal self len
                (i + 1 + Z.of_nat (length requests)) more tb st2)
      as [[rs'|e] st3]; reflexivity.
Qed.

(** Dispatching the request of an element-indexed action returns its
    fixed result and does to the outside what [element_effect] says. *)
Lemma act_element_request `{Platform} (self : Controller)
    (ea : element_action) (tb : MacUITreeBuilder) (st : State) :
  Registry_lookup (registry self) "click_element" = Some click_element_action →
  Registry_lookup (registry self) "input_text" = Some input_text_action →
  act self (element_request ea) tb st =
    (Ret (element_result ea), element_effect ea tb st).
Proof.
  intros Hclick Hinput. destruct ea as [index|index text submit]; simpl.
  - rewrite act_click_element_request, click_element_run by exact Hclick.
    by destruct (_element_cache tb !! index).
  - rewrite act_input_text_request, input_text_run by exact Hinput.
    by destruct (_element_cache tb !! index).
Qed.

Lemma element_requests_run_through `{Platform} (self : Controller)
    (tb : MacUITreeBuilder) (len : Z) (eas : list element_action) :
  Registry_lookup (registry self) "click_element" = Some click_element_action →
  Registry_lookup (registry self) "input_text" = Some input_text_action →
  ∀ (i : Z) (st : State),
    runs_through self tb len i (map element_request eas) st
      (map element_result eas) (sequence_effect len i eas tb st).
Proof.
  intros Hclick Hinput. induction eas as [|ea eas IH]; intros i st; simpl.
  - constructor.
  - econstructor.
    + by apply act_element_request.
    + by destruct ea.
    + apply IH.
Qed.

(** C8: whatever the index and whatever the capability does (succeeds,
    fails or raises), the result of [click_element] and of [input_text]
    has [error] unset and [is_done] false.  Hence a sequence made only of
    [click_element] and [input_text] requests, run by a controller that
    excludes neither action, is run to its end: [multi_act] returns as many
    results as there are requests, none of them terminal.  More precisely,
    it returns the fixed result of each request, in order, and what it did
    to the outside is what every one of the actions does, one after the
    other, each followed by its debug line: no request is left out and
    nothing else is done. *)
Theorem element_actions_never_stop_a_sequence `{Platform} :
  (∀ index tb st, ∃ r st',
     click_element index tb st = (Ret r, st') ∧
     error r = None ∧ is_done r = false) ∧
  (∀ index text submit tb st, ∃ r st',
     input_text index text submit tb st = (Ret r, st') ∧
     error r = None ∧ is_done r = false) ∧
  (∀ exclude self actions tb flag st,
     Controller_init exclude = Ret self →
     "click_element" ∉ exclude → "input_text" ∉ exclude →
     Forall is_element_request actions →
     ∃ rs st',
       multi_act self actions tb flag st = (Ret rs, st') ∧
       length rs = length actions ∧
       Forall (λ r, error r = None ∧ is_done r = false) rs) ∧
  (∀ exclude self (eas : list element_action) tb flag st,
     Controller_init exclude = Ret self →
     "click_element" ∉ exclude → "input_text" ∉ exclude →
     multi_act self (map element_request eas) tb flag st =
       (Ret (map element_result eas),
        sequence_effect (Z.of_nat (length eas)) 0 eas tb st)).
Proof.
  split; [|split; [|split]].
  - intros index tb st. rewrite click_element_run.
    eexists _, _. repeat split; reflexivity.
  - intros index text submit tb st. rewrite input_text_run.
    eexists _, _. repeat split; reflexivity.
  - intros exclude self actions tb flag st Hinit Hclick Hinput Hactions.
    rewrite multi_act_run_sequence. apply run_sequence_exhausts.
    eapply Forall_impl; [exact Hactions|].
    intros action [(index & ->)|(index & text & submit & ->)] st0.
    + rewrite act_click_element_request, click_element_run.
      * eexists _, _. repeat split; reflexivity.
      * apply (Controller_init_lookup exclude self click_element_action Hinit);
          [repeat constructor | exact Hclick].
    + rewrite act_input_text_request, input_text_run.
      * eexists _, _. repeat split; reflexivity.
      * apply (Controller_init_lookup exclude self input_text_action Hinit);
          [repeat constructor | exact Hinput].
  - intros exclude self eas tb flag st Hinit Hclick Hinput.
    rewrite multi_act_run_sequence, length_map.
    rewrite <- (app_nil_r (map element_request eas)).
    rewrite (runs_through_run_sequence self tb _ 0 _ st _ _
               (element_requests_run_through self tb _ eas
                  (Controller_init_lookup exclude self click_element_action
                     Hinit ltac:(repeat constructor) Hclick)
                  (Controller_init_lookup exclude self input_text_action
                     Hinit ltac:(repeat constructor) Hinput)
                  0 st)).
    rewrite bind_run. simpl. by rewrite app_nil_r.
Qed.

Lemma element_actions_never_stop_a_sequence_witness :
  @Controller_init demo_platform [] = Ret demo_fresh_controller ∧
  (∃ rs st',
     multi_act demo_fresh_controller
       [click_element_request 4; input_text_request 2 "hi" false;
        click_element_request 7] demo_builder true demo_state = (Ret rs, st') ∧
     length rs = 3%nat ∧
     Forall (λ r, error r = None ∧ is_done r = false) rs) ∧
  multi_act demo_fresh_controller
    [click_element_request 4; input_text_request 2 "hi" false;
     click_element_request 7] demo_builder true demo_state =
  (Ret [clicked 4; inputted 2; clicked 7],
   @mkState demo_platform []
     [LogInfo "Clicking element 4"; Printed "Attempting to click: Gone";
      @Click demo_platform "Gone";
      Printed "❌ An error occurred: element is gone";
      LogDebug "Executed action 1 / 3";
      LogInfo "Inputting text hi into element with index 2";
      Printed "Attempting to input text: Greyed";
      @TypeInto demo_platform "Greyed" "hi" false;
      Printed "❌ Input failed.";
      LogDebug "Executed action 2 / 3";
      LogInfo "Clicking element 7"; Printed "❌ Invalid index.";
      LogDebug "Executed action 3 / 3"]).
Proof.
  split; [reflexivity|]. split.
  - apply (proj1 (proj2 (proj2 (@element_actions_never_stop_a_sequence
             demo_platform)))
             [] demo_fresh_controller
             [click_element_request 4; input_text_request 2 "hi" false;
              click_element_request 7] demo_builder true demo_state).
    + reflexivity.
    + apply not_elem_of_nil.
    + apply not_elem_of_nil.
    + unfold is_element_request.
      constructor; [left; by exists 4|].
      constructor; [right; by exists 2, "hi", false|].
      constructor; [left; by exists 7|].
      constructor.
  - apply (proj2 (proj2 (proj2 (@element_actions_never_stop_a_sequence
             demo_platform)))
             [] demo_fresh_controller
             [ClickElement 4; InputText 2 "hi" false; ClickElement 7]
             demo_builder true demo_state).
    + reflexivity.
    + apply not_elem_of_nil.
    + apply not_elem_of_nil.
Defined.

(** * Further properties of the code *)

(** ** Substrings *)




(** ** [open_app]: what it does to the outside *)

(** The poll: one delay of a second, then one look at the process list,
    then console and log lines only. *)
Lemma open_app_poll_events `{Platform} (app_name : string) (st : State) :
  ∃ events,
    trace (open_app_poll app_name st).2 =
      trace st ++ Sleep 1 :: RunningApplications :: events ∧
    platform_calls events = [] ∧
    world (open_app_poll app_name st).2 =
      (runningApplications (sleep 1 (world st))).2 ∧
    (open_app_poll app_name st).1 =
      Ret match polled app_name (world st) with
          | Some app =>
              {| extracted_content := Some ("We opened the app " +:+ app_name);
                 error := None; is_done := false;
                 current_app_pid := Some (processIdentifier app) |}
          | None =>
              let msg := "Could not find running app with name: " +:+ app_name
                         +:+ " in running applications." in
              {| extracted_content := Some msg; error := Some msg;
                 is_done := false; current_app_pid := None |}
          end.
Proof.
  unfold open_app_poll, polled. run_monad.
  destruct (runningApplications (sleep 1 (world st))) as [apps w]; simpl.
  destruct (find (bundle_matches app_name) apps) as [app|]; simpl;
    rewrite <- !app_assoc; simpl; eexists; repeat split; reflexivity.
Qed.

(** [open_app] talks to the platform in a fixed order: the launch with the
    name as given; only if that fails, the launch with the lower-cased
    name; and only after a launch that succeeded, one delay of a second
    followed by one look at the process list.  Nothing else reaches the
    platform. *)
Theorem open_app_platform_calls `{Platform} (app_name : string) (st : State) :
  ∃ events,
    trace (open_app app_name st).2 = trace st ++ events ∧
    platform_calls events =
      match launchApplication_ app_name (world st) with
      | (true, _) =>
          [LaunchApplication app_name; Sleep 1; RunningApplications]
      | (false, w1) =>
          if (launchApplication_ (lower app_name) w1).1
          then [LaunchApplication app_name;
                LaunchApplication (lower app_name);
                Sleep 1; RunningApplications]
          else [LaunchApplication app_name;
                LaunchApplication (lower app_name)]
      end.
Proof.
  unfold open_app. rewrite bind_run, open_app_launch_run.
  destruct (launchApplication_ app_name (world st)) as [[|] w1]; simpl.
  - match goal with
    | |- context [open_app_poll app_name ?s] =>
        destruct (open_app_poll_events app_name s)
          as (events & Htrace & Hcalls & _)
    end.
    eexists. rewrite Htrace. simpl trace. rewrite <- app_assoc.
    split; [reflexivity|].
    unfold platform_calls in *. simpl. by rewrite Hcalls.
  - destruct (launchApplication_ (lower app_name) w1) as [[|] w2]; simpl.
    + match goal with
      | |- context [open_app_poll app_name ?s] =>
          destruct (open_app_poll_events app_name s)
            as (events & Htrace & Hcalls & _)
      end.
      eexists. rewrite Htrace. simpl trace. rewrite <- app_assoc.
      split; [reflexivity|].
      unfold platform_calls in *. simpl. by rewrite Hcalls.
    + eexists. split; reflexivity.
Qed.




(** Every result [open_app] returns has [is_done] false and an
    [extracted_content], and carries either a process id and no error, or
    an error and no process id; the error is then not empty and repeats
    the [extracted_content]. *)
Theorem open_app_error_or_pid `{Platform} (app_name : string) (st st' : State)
    (r : ActionResult) :
  open_app app_name st = (Ret r, st') →
  is_done r = false ∧
  extracted_content r ≠ None ∧
  ((error r = None ∧ ∃ pid, current_app_pid r = Some pid) ∨
   (current_app_pid r = None ∧ truthy (error r) = true ∧
    error r = extracted_content r)).
Proof.
  intros Hreturned.
  destruct (open_app_run app_name st) as (st1 & Hrun).
  rewrite Hreturned in Hrun. injection Hrun as -> _.
  destruct (launch_outcome app_name (world st)) as [[|] w]; simpl.
  - destruct (polled app_name w) as [app|]; simpl.
    + repeat split; [done|]. left. split; [done|]. by eexists.
    + repeat split; [done|]. right. by repeat split.
  - repeat split; [done|]. right. by repeat split.
Qed.

Lemma open_app_error_or_pid_witness :
  ∃ r,
    (@open_app demo_platform "Safari" demo_state).1 = Ret r ∧
    is_done r = false ∧
    extracted_content r ≠ None ∧
    ((error r = None ∧ ∃ pid, current_app_pid r = Some pid) ∨
     (current_app_pid r = None ∧ truthy (error r) = true ∧
      error r = extracted_content r)).
Proof.
  eexists. split; [reflexivity|].
  eapply (@open_app_error_or_pid demo_platform "Safari" demo_state).
  cbv; reflexivity.
Defined.

(** ** The dispatcher and the runner, composed with the actions *)

Lemma act_open_app_request `{Platform} (self : Controller) (app_name : string)
    (tb : MacUITreeBuilder) (st : State) :
  Registry_lookup (registry self) "open_app" = Some open_app_action →
  act self (open_app_request app_name) tb st = open_app app_name st.
Proof.
  intros Hfind. unfold open_app_request.
  rewrite act_single, bind_run.
  unfold execute_action. rewrite Hfind. simpl.
  rewrite lookup_singleton_eq. simpl.
  unfold kw_str. rewrite lookup_insert_eq.
  unfold returning. rewrite !bind_run.
  destruct (open_app_run app_name st) as (st' & ->). reflexivity.
Qed.

(** A first result that is terminal is the only result, and the run ends
    in the state the first dispatch left, plus the debug line. *)
Lemma multi_act_first_terminal `{Platform} (self : Controller)
    (tb : MacUITreeBuilder) (flag : bool) (a : ActionModel)
    (rest : list ActionModel) (st st1 : State) (r : ActionResult) :
  act self a tb st = (Ret r, st1) →
  terminal r = true →
  multi_act self (a :: rest) tb flag st =
    (Ret [r],
     {| world := world st1;
        trace := trace st1 ++
          [LogDebug ("Executed action " +:+ pretty 1 +:+ " / "
                     +:+ pretty (Z.of_nat (S (length rest))))] |}).
Proof.
  intros Hact Hterminal.
  rewrite multi_act_run_sequence. simpl run_sequence.
  rewrite !bind_run, Hact, bind_run. simpl. by rewrite Hterminal.
Qed.

(** A failed [open_app] ends a sequence.  Through the dispatcher of a
    controller that does not exclude it, an [open_app] request whose
    result carries an error (the launch failed twice, or the process was
    not found) is the last one dispatched: [multi_act] returns that one
    result, and the requests after it are never run. *)
Theorem failed_open_app_stops_sequence `{Platform} (exclude : list string)
    (self : Controller) (tb : MacUITreeBuilder) (flag : bool)
    (app_name : string) (rest : list ActionModel) (st st1 : State)
    (r : ActionResult) :
  Controller_init exclude = Ret self →
  "open_app" ∉ exclude →
  open_app app_name st = (Ret r, st1) →
  error r ≠ None →
  multi_act self (open_app_request app_name :: rest) tb flag st =
    (Ret [r],
     {| world := world st1;
        trace := trace st1 ++
          [LogDebug ("Executed action " +:+ pretty 1 +:+ " / "
                     +:+ pretty (Z.of_nat (S (length rest))))] |}).
Proof.
  intros Hinit Hex Hrun Herror.
  apply multi_act_first_terminal.
  - rewrite act_open_app_request; [exact Hrun|].
    apply (Controller_init_lookup exclude self open_app_action Hinit);
      [repeat constructor | exact Hex].
  - destruct (open_app_run app_name st) as (st' & Hrun').
    rewrite Hrun in Hrun'. injection Hrun' as -> _.
    unfold terminal.
    destruct (launch_outcome app_name (world st)) as [[|] w]; simpl in *;
      [destruct (polled app_name w); simpl in *|]; done.
Qed.

Lemma failed_open_app_stops_sequence_witness :
  @multi_act demo_platform demo_fresh_controller
    [open_app_request "Notes"; click_element_request 1; done_request "ok"]
    demo_builder true demo_state =
  (Ret [ {| extracted_content :=
              Some "Failed to launch app: Notes (and lowercased: notes)";
            error :=
              Some "Failed to launch app: Notes (and lowercased: notes)";
            is_done := false; current_app_pid := None |} ],
   @mkState demo_platform []
     [Printed (newline +:+ "Launching app: Notes...");
      LaunchApplication "Notes";
      Printed "❌ Failed to launch app with name: Notes. Trying lowercased...";
      LaunchApplication "notes";
      Printed "❌ Failed to launch app with lowercased name: notes";
      LogDebug "Failed to launch app: Notes (and lowercased: notes)";
      LogDebug "Executed action 1 / 3"]).
Proof.
  apply (@failed_open_app_stops_sequence demo_platform [] demo_fresh_controller
           demo_builder true "Notes"
           [click_element_request 1; done_request "ok"] demo_state
           (@mkState demo_platform []
              [Printed (newline +:+ "Launching app: Notes...");
               LaunchApplication "Notes";
               Printed "❌ Failed to launch app with name: Notes. Trying lowercased...";
               LaunchApplication "notes";
               Printed "❌ Failed to launch app with lowercased name: notes";
               LogDebug "Failed to launch app: Notes (and lowercased: notes)"])).
  - reflexivity.
  - apply not_elem_of_nil.
  - reflexivity.
  - discriminate.
Defined.

(** [act] runs the first populated entry and nothing else: entries before
    it that are [None] are passed over, and whatever comes after it,
    populated or not, has no influence on the result or on the state. *)
Theorem act_ignores_later_entries `{Platform} (self : Controller)
    (unpopulated rest : ActionModel) (action_name : string)
    (params : gmap string value) (tb : MacUITreeBuilder) (st : State) :
  Forall (λ entry, entry.2 = None) unpopulated →
  act self (unpopulated ++ (action_name, Some params) :: rest) tb st =
  act self [(action_name, Some params)] tb st.
Proof.
  intros Hnone. by rewrite act_first_populated, act_single.
Qed.

Lemma act_ignores_later_entries_witness :
  @act demo_platform demo_controller
    ([("open_app", None)] ++ ("click_element", Some {[ "index" := VInt 1 ]})
       :: [("done", Some {[ "text" := VStr "ok" ]}); ("count", Some ∅)])
    demo_builder demo_state =
  @act demo_platform demo_controller
    [("click_element", Some {[ "index" := VInt 1 ]})] demo_builder demo_state.
Proof.
  apply (@act_ignores_later_entries demo_platform demo_controller
           [("open_app", None)]
           [("done", Some {[ "text" := VStr "ok" ]}); ("count", Some ∅)]).
  by repeat constructor.
Defined.

(** [multi_act] does not catch exceptions.  When, in the run at hand,
    the requests before some request each return a result that does not
    stop the runner, and that request then raises, [multi_act] raises the
    same exception, in the state in which the request raised: the results
    collected so far are not returned, and no later request is
    dispatched. *)
Theorem multi_act_raises_through `{Platform} (self : Controller)
    (tb : MacUITreeBuilder) (flag : bool) (front rest : list ActionModel)
    (a : ActionModel) (e : exn) (st st1 st2 : State)
    (rs : list ActionResult) :
  runs_through self tb (Z.of_nat (length (front ++ a :: rest))) 0 front
    st rs st1 →
  act self a tb st1 = (Raise e, st2) →
  multi_act self (front ++ a :: rest) tb flag st = (Raise e, st2).
Proof.
  intros Hfront Hraise.
  rewrite multi_act_run_sequence.
  rewrite (runs_through_run_sequence _ _ _ _ _ _ _ _ Hfront).
  simpl run_sequence. rewrite !bind_run, Hraise. reflexivity.
Qed.

Lemma multi_act_raises_through_witness :
  @multi_act demo_platform demo_controller
    ([open_app_request "ghost"; click_element_request 1]
       ++ no_params_request "count" :: [done_request "ok"])
    demo_builder true (@mkState demo_platform [ghost_app] []) =
  (Raise (ValueError "Invalid action result type: <class 'int'> of 3"),
   @mkState demo_platform [ghost_app]
     [Printed (newline +:+ "Launching app: ghost...");
      LaunchApplication "ghost";
      Printed "✅ Launched app using name: ghost";
      Sleep 1; RunningApplications;
      Printed "Bundle ID: org.Ghost.app"; Printed "PID: 612";
      LogDebug "Executed action 1 / 4";
      LogInfo "Clicking element 1"; Printed "Attempting to click: OK";
      @Click demo_platform "OK"; Printed "✅ Click successful!";
      LogDebug "Executed action 2 / 4"]).
Proof.
  eapply (@multi_act_raises_through demo_platform demo_controller demo_builder
            true [open_app_request "ghost"; click_element_request 1]
            [done_request "ok"] (no_params_request "count")).
  - eapply runs_through_cons; [reflexivity|reflexivity|].
    eapply runs_through_cons; [reflexivity|reflexivity|].
    apply runs_through_nil.
  - reflexivity.
Defined.

(** A [done] request ends a sequence wherever it stands.  After any
    number of [click_element] and [input_text] requests, the results
    returned are the fixed results of those requests, in order, followed
    by the result of [done]; and the run ends in the state those requests
    left, plus the debug line for [done]: the requests after it are never
    dispatched. *)
Theorem done_ends_sequence `{Platform} (exclude : list string)
    (self : Controller) (tb : MacUITreeBuilder) (flag : bool)
    (eas : list element_action) (rest : list ActionModel) (text : string)
    (st : State) :
  Controller_init exclude = Ret self →
  "done" ∉ exclude → "click_element" ∉ exclude → "input_text" ∉ exclude →
  let requests := map element_request eas ++ done_request text :: rest in
  let len := Z.of_nat (length requests) in
  multi_act self requests tb flag st =
    (Ret (map element_result eas ++
          [ {| extracted_content := Some text; error := None;
               is_done := true; current_app_pid := None |} ]),
     logged (sequence_effect len 0 eas tb st)
       (executed_line (Z.of_nat (length eas)) len)).
Proof.
  intros Hinit Hdone Hclick Hinput requests len.
  unfold requests in *. rewrite multi_act_run_sequence. fold len.
  rewrite (runs_through_run_sequence self tb len 0 _ st _ _
             (element_requests_run_through self tb len eas
                (Controller_init_lookup exclude self click_element_action
                   Hinit ltac:(repeat constructor) Hclick)
                (Controller_init_lookup exclude self input_text_action
                   Hinit ltac:(repeat constructor) Hinput)
                0 st)).
  rewrite length_map. simpl run_sequence.
  rewrite !bind_run, act_done_request.
  - reflexivity.
  - apply (Controller_init_lookup exclude self done_action Hinit);
      [repeat constructor | exact Hdone].
Qed.

Lemma done_ends_sequence_witness :
  @multi_act demo_platform demo_fresh_controller
    ([click_element_request 2; input_text_request 7 "hi" true]
       ++ done_request "ok" :: [click_element_request 1])
    demo_builder true demo_state =
  (Ret [clicked 2; inputted 7;
        {| extracted_content := Some "ok"; error := None; is_done := true;
           current_app_pid := None |}],
   @mkState demo_platform []
     [LogInfo "Clicking element 2"; Printed "Attempting to click: Greyed";
      @Click demo_platform "Greyed"; Printed "❌ Click failed.";
      LogDebug "Executed action 1 / 4";
      LogInfo "Inputting text hi into element with index 7";
      Printed "❌ Invalid index.";
      LogDebug "Executed action 2 / 4";
      LogDebug "Executed action 3 / 4"]).
Proof.
  apply (@done_ends_sequence demo_platform [] demo_fresh_controller
           demo_builder true [ClickElement 2; InputText 7 "hi" true]
           [click_element_request 1] "ok" demo_state).
  - reflexivity.
  - apply not_elem_of_nil.
  - apply not_elem_of_nil.
  - apply not_elem_of_nil.
Defined.
